(** * Mote: surface-nets extraction and the planet's signed distance function

    A shallow embedding of [js/SurfaceNets.js] (class [SurfaceNets]) and of
    the field evaluator of [js/TinyPlanet.js] (class [TinyPlanet]:
    [initNoise], [fade], [lerp], [grad], [noise3D], [sdf], [mine], [place],
    [generateMesh]), followed by the properties of the design document that
    are stated about them.

    Conventions.
    - JavaScript integers used with bit operators are [Z], each operator
      with its 32-bit wrap-around written out (module [JS]).
    - JavaScript numbers are, for [SurfaceNets.extract], the carrier of a
      number model [Num]: the extraction treats the field as an opaque
      callback and only adds, subtracts, multiplies, divides, compares and
      stores into a [Float32Array]. The model [float_num] is IEEE binary64
      as JavaScript has it. [TinyPlanet] is embedded over binary64
      directly.
    - Typed arrays are lists updated by index; the [Map] is a [gmap] keyed
      by the strings [getKey] builds.
    - The field callback may have effects: it is a computation in the state
      monad [M W] over an arbitrary world [W]. *)

From Stdlib Require Import ZArith Bool Lia Floats Ascii.
From stdpp Require Import gmap strings list pretty.

Local Open Scope Z_scope.

(** ** JavaScript's 32-bit integer operators *)

Module JS.

(** [ToInt32]: the operand of every bit operator is wrapped to a signed
    32-bit integer. *)
Definition ToInt32 (z : Z) : Z := (z + 2 ^ 31) mod 2 ^ 32 - 2 ^ 31.

(** [a << b]: the shift count is taken modulo 32. *)
Definition shl (a b : Z) : Z := ToInt32 (Z.shiftl (ToInt32 a) (Z.land b 31)).

(** [a >> b], sign-propagating. *)
Definition shr (a b : Z) : Z := Z.shiftr (ToInt32 a) (Z.land b 31).

(** [a & b], [a | b], [a ^ b]. *)
Definition band (a b : Z) : Z := Z.land (ToInt32 a) (ToInt32 b).
Definition bor (a b : Z) : Z := Z.lor (ToInt32 a) (ToInt32 b).
Definition bxor (a b : Z) : Z := Z.lxor (ToInt32 a) (ToInt32 b).

(** [!!n], and the test of [if (n)], on an integer. *)
Definition truthy (n : Z) : bool := negb (n =? 0).

(** [arr[i]] on an [Int32Array]. An index out of range reads [undefined],
    which every use below would convert to 0; no read below is out of
    range. *)
Definition get (arr : list Z) (i : Z) : Z := default 0 (arr !! Z.to_nat i).

(** [arr[i] = v] on a typed array: a write out of range is ignored. *)
Definition set (arr : list Z) (i : Z) (v : Z) : list Z :=
  if 0 <=? i then <[Z.to_nat i := v]> arr else arr.

End JS.

(** ** SurfaceNets: the tables built by [init] *)

Module Tables.
Import JS.

(** An instance of the class: its two [Int32Array]s. *)
Record SurfaceNets := mkSurfaceNets {
  cubeEdges : list Z;
  edgeTable : list Z
}.

(** [init], first loop nest: [for i in 0..7, for j = 1, 2, 4 (j <<= 1 while
    j <= 4)]; the accumulator is the array and the write cursor [k]. *)
Definition init_cubeEdges (ce0 : list Z) : list Z :=
  fst (foldl (fun acc i =>
         foldl (fun '(ce, k) j =>
                  let p := bxor i j in
                  if i <=? p
                  then (set (set ce k i) (k + 1) p, k + 2)
                  else (ce, k))
               acc [1; 2; 4])
       (ce0, 0) (seqZ 0 8)).

(** [init], second loop nest: [for i in 0..255], [for j = 0, 2, .., 22]. *)
Definition init_edgeTable (ce : list Z) (et0 : list Z) : list Z :=
  foldl (fun et i =>
           let em :=
             foldl (fun em j =>
                      let a := truthy (band i (shl 1 (get ce j))) in
                      let b := truthy (band i (shl 1 (get ce (j + 1)))) in
                      bor em (if negb (eqb a b) then shl 1 (shr j 1) else 0))
                   0 ((fun n => 2 * n) <$> seqZ 0 12) in
           set et i em)
        et0 (seqZ 0 256).

Definition init (sn : SurfaceNets) : SurfaceNets :=
  let ce := init_cubeEdges (cubeEdges sn) in
  mkSurfaceNets ce (init_edgeTable ce (edgeTable sn)).

(** The constructor: two zeroed arrays, then [init]. *)
Definition new_SurfaceNets : SurfaceNets :=
  init (mkSurfaceNets (replicate 24 0) (replicate 256 0)).

End Tables.

Import Tables.

(** ** Numbers, and the effect of calling the field *)

(** What [extract] asks of JavaScript's numbers. [num_of_Z] reads an integer
    (a literal, a loop counter, [resolution - 1], [vertCount]) as a number;
    [nfround] is the rounding of a store into a [Float32Array]. *)
Class Num (F : Type) := {
  num_of_Z : Z -> F;
  nadd : F -> F -> F;
  nsub : F -> F -> F;
  nmul : F -> F -> F;
  ndiv : F -> F -> F;
  nlt : F -> F -> bool;
  nfround : F -> F
}.

Declare Scope num_scope.
Delimit Scope num_scope with num.
Notation "x + y" := (nadd x y) : num_scope.
Notation "x - y" := (nsub x y) : num_scope.
Notation "x * y" := (nmul x y) : num_scope.
Notation "x / y" := (ndiv x y) : num_scope.
Notation "x <? y" := (nlt x y) : num_scope.
Abbreviation of_int := num_of_Z.

(** A JavaScript array of three numbers ([bounds[0]], [scale], [v], a
    vertex). *)
Record vec3 (F : Type) := V3 { c0 : F; c1 : F; c2 : F }.
Arguments V3 {F} _ _ _.
Arguments c0 {F} _.
Arguments c1 {F} _.
Arguments c2 {F} _.

(** [v[j]] and [v[j] = a] for [j] in 0..2, the only indices the code uses. *)
Definition vget {F} (v : vec3 F) (j : Z) : F :=
  if j =? 0 then c0 v else if j =? 1 then c1 v else c2 v.
Definition vset {F} (v : vec3 F) (j : Z) (a : F) : vec3 F :=
  if j =? 0 then V3 a (c1 v) (c2 v)
  else if j =? 1 then V3 (c0 v) a (c2 v)
  else if j =? 2 then V3 (c0 v) (c1 v) a
  else v.

(** Computations that may call the field: state passing over a world [W]
    of which [extract] knows nothing. *)
Definition M (W A : Type) : Type := W -> A * W.
Definition ret {W A} (a : A) : M W A := fun w => (a, w).
Definition bind {W A B} (m : M W A) (k : A -> M W B) : M W B :=
  fun w => let '(a, w1) := m w in k a w1.

Notation "'let*' x ':=' m 'in' k" := (bind m (fun x => k))
  (at level 10, x pattern, m at level 100, k at level 200).

(** [for (a of l) { s = body(s, a) }]. *)
Fixpoint forM {W A S} (l : list A) (body : S -> A -> M W S) (s : S) : M W S :=
  match l with
  | [] => ret s
  | a :: l1 => let* s1 := body s a in forM l1 body s1
  end.

(** ** SurfaceNets.extract *)

Module Extract.
Import JS.

Definition face : Type := nat * nat * nat.

Section WithNumbers.
Context {F : Type} {num : Num F} {W : Type}.
Local Open Scope num_scope.

(** The field callback [densityFunc(x, y, z)]. *)
Definition field : Type := F -> F -> F -> M W F.

(** What the loop nest of [extract] mutates: the two output arrays, the
    scratch [grid] (one [Float32Array(8)] shared by all cells) and the
    [Map] from cell keys to vertex indices. *)
Record state := mkState {
  vertices : list (vec3 F);
  faces : list face;
  grid : list F;
  vertexBuffer : gmap string nat
}.

(** [grid[e]]; no read below is out of range. *)
Definition grid_get (g : list F) (e : Z) : F := default (of_int 0) (g !! Z.to_nat e).

(** [getKey]: the template string [`${x},${y},${z}`]. *)
Definition getKey (x y z : Z) : string :=
  pretty x +:+ "," +:+ pretty y +:+ "," +:+ pretty z.

(** Lines 68-75: the body of the innermost corner loop. The accumulator
    is [(grid, mask, g)]. *)
Definition corner_step (densityFunc : field) (xPos yPos zPos : F)
    (scale : vec3 F) (dz dy : Z) (acc : list F * Z * Z) (dx : Z)
    : M W (list F * Z * Z) :=
  let '(gr, mask, g) := acc in
  let* val := densityFunc (xPos + of_int dx * c0 scale)
                          (yPos + of_int dy * c1 scale)
                          (zPos + of_int dz * c2 scale) in
  ret (<[Z.to_nat g := nfround val]> gr,
       bor mask (if val <? of_int 0 then shl 1 g else 0%Z),
       (g + 1)%Z).

(** Lines 62-78: read the 8 corners of the cube, [dz] outermost. *)
Definition sample_corners (densityFunc : field) (xPos yPos zPos : F)
    (scale : vec3 F) (grid0 : list F) : M W (list F * Z) :=
  let* (gr, mask, _) :=
    forM [0; 1]%Z (fun acc dz =>
      forM [0; 1]%Z (fun acc dy =>
        forM [0; 1]%Z (corner_step densityFunc xPos yPos zPos scale dz dy)
             acc) acc)
      (grid0, 0%Z, 0%Z) in
  ret (gr, mask).

(** Lines 100-109: the body of the loop over the three axes, for the
    edge from corner [e0] to corner [e1] crossed at parameter [t]. The
    accumulator is [(v, k)]. *)
Definition axis_step (e0 e1 : Z) (t : F) (acc : vec3 F * Z) (j : Z)
    : vec3 F * Z :=
  let '(v, k) := acc in
  let a := band e0 k in
  let b := band e1 k in
  (if negb (a =? b)%Z
   then vset v j (vget v j + (if truthy a then of_int 1 - t else t))
   else vset v j (vget v j + (if truthy a then of_int 1 else of_int 0)),
   shl k 1).

(** Lines 90-111: the body of the loop over the 12 edges. The
    accumulator is [(v, vertCount)]. *)
Definition edge_step (sn : SurfaceNets) (edgeMask : Z) (gr : list F)
    (acc : vec3 F * Z) (i : Z) : vec3 F * Z :=
  let '(v, vertCount) := acc in
  if negb (truthy (band edgeMask (shl 1 i))) then (v, vertCount)
  else
    let e0 := get (cubeEdges sn) (shl i 1) in
    let e1 := get (cubeEdges sn) (shl i 1 + 1)%Z in
    let g0 := grid_get gr e0 in
    let g1 := grid_get gr e1 in
    let t := g0 / (g0 - g1) in
    (fst (foldl (axis_step e0 e1 t) (v, 1%Z) [0; 1; 2]%Z), (vertCount + 1)%Z).

(** Lines 87-111: the sum [v] of the crossing points of the edges of
    [edgeMask], and their number [vertCount]. *)
Definition accumulate_edges (sn : SurfaceNets) (edgeMask : Z) (gr : list F)
    : vec3 F * Z :=
  foldl (edge_step sn edgeMask gr) (V3 (of_int 0) (of_int 0) (of_int 0), 0%Z) (seqZ 0 12).

(** The block repeated for each axis (lines 135-143): with the four
    looked-up indices, push two triangles wound by [mask & 1], or
    nothing when one of them is [undefined]. *)
Definition push_quad (fs : list face) (mask : Z) (v0 v1 v2 v3 : option nat)
    : list face :=
  match v0, v1, v2, v3 with
  | Some a, Some b, Some c, Some d =>
      if truthy (band mask 1)
      then fs ++ [(a, b, c); (a, c, d)]
      else fs ++ [(a, d, c); (a, c, b)]
  | _, _, _, _ => fs
  end.

(** Lines 127-145, 147-165, 167-185. *)
Definition stitch_x (vb : gmap string nat) (mask edgeMask x y z : Z)
    (fs : list face) : list face :=
  if truthy (band edgeMask 1) then
    if (0 <? y)%Z && (0 <? z)%Z then
      push_quad fs mask (vb !! getKey x y z) (vb !! getKey x (y - 1) z)
                (vb !! getKey x (y - 1) (z - 1)) (vb !! getKey x y (z - 1))
    else fs
  else fs.

Definition stitch_y (vb : gmap string nat) (mask edgeMask x y z : Z)
    (fs : list face) : list face :=
  if truthy (band edgeMask 2) then
    if (0 <? x)%Z && (0 <? z)%Z then
      push_quad fs mask (vb !! getKey x y z) (vb !! getKey x y (z - 1))
                (vb !! getKey (x - 1) y (z - 1)) (vb !! getKey (x - 1) y z)
    else fs
  else fs.

Definition stitch_z (vb : gmap string nat) (mask edgeMask x y z : Z)
    (fs : list face) : list face :=
  if truthy (band edgeMask 4) then
    if (0 <? x)%Z && (0 <? y)%Z then
      push_quad fs mask (vb !! getKey x y z) (vb !! getKey (x - 1) y z)
                (vb !! getKey (x - 1) (y - 1) z) (vb !! getKey x (y - 1) z)
    else fs
  else fs.

(** The body of the innermost loop (lines 58-185) at cell [(x, y, z)]. *)
Definition cell (sn : SurfaceNets) (densityFunc : field)
    (bounds : vec3 F * vec3 F) (scale : vec3 F) (x y z : Z) (st : state)
    : M W state :=
  let xPos := c0 (fst bounds) + of_int x * c0 scale in
  let yPos := c1 (fst bounds) + of_int y * c1 scale in
  let zPos := c2 (fst bounds) + of_int z * c2 scale in
  let* (gr, mask) := sample_corners densityFunc xPos yPos zPos scale (grid st) in
  if (mask =? 0)%Z || (mask =? 255)%Z
  then ret (mkState (vertices st) (faces st) gr (vertexBuffer st))
  else
    let edgeMask := get (edgeTable sn) mask in
    let '(v, vertCount) := accumulate_edges sn edgeMask gr in
    let s := of_int 1 / of_int vertCount in
    let vertIdx := length (vertices st) in
    let vs := vertices st ++ [V3 (xPos + c0 v * s * c0 scale)
                                 (yPos + c1 v * s * c1 scale)
                                 (zPos + c2 v * s * c2 scale)] in
    let vb := <[getKey x y z := vertIdx]> (vertexBuffer st) in
    let fs := stitch_x vb mask edgeMask x y z (faces st) in
    let fs := stitch_y vb mask edgeMask x y z fs in
    let fs := stitch_z vb mask edgeMask x y z fs in
    ret (mkState vs fs gr vb).

(** Lines 40-44: the per-axis cell size. *)
Definition cell_scale (bounds : vec3 F * vec3 F) (resolution : Z) : vec3 F :=
  let dims := (resolution, resolution, resolution) in
  V3 ((c0 (snd bounds) - c0 (fst bounds)) / of_int (dims.1.1 - 1))
     ((c1 (snd bounds) - c1 (fst bounds)) / of_int (dims.1.2 - 1))
     ((c2 (snd bounds) - c2 (fst bounds)) / of_int (dims.2 - 1)).

Definition init_state : state :=
  mkState [] [] (replicate 8 (of_int 0)) ∅.

(** The loop nest of lines 55-188, [z] outermost, each counter running
    over [0 .. resolution - 2]. *)
Definition march (sn : SurfaceNets) (densityFunc : field)
    (bounds : vec3 F * vec3 F) (resolution : Z) : M W state :=
  let scale := cell_scale bounds resolution in
  forM (seqZ 0 (resolution - 1)) (fun st z =>
    forM (seqZ 0 (resolution - 1)) (fun st y =>
      forM (seqZ 0 (resolution - 1)) (fun st x =>
        cell sn densityFunc bounds scale x y z st) st) st)
    init_state.

(** [extract(densityFunc, bounds, resolution)]: [{ vertices, faces }]. *)
Definition extract (sn : SurfaceNets) (densityFunc : field)
    (bounds : vec3 F * vec3 F) (resolution : Z)
    : M W (list (vec3 F) * list face) :=
  let* st := march sn densityFunc bounds resolution in
  ret (vertices st, faces st).

End WithNumbers.

Arguments field : clear implicits.
Arguments state : clear implicits.

End Extract.

(** ** JavaScript numbers: IEEE binary64 *)

Module Float64.

(** An integer read as a number: the nearest binary64 value. *)
Definition of_Z (z : Z) : float :=
  SF2Prim (binary_normalize prec emax z 0 false).

(** [Math.fround], the conversion done by a store into a [Float32Array]:
    round to the nearest binary32 value (24-bit mantissa), ties to even. *)
Definition fround (x : float) : float :=
  match Prim2SF x with
  | S754_finite s m e =>
      SF2Prim (binary_normalize 24 128 (if s then Zneg m else Zpos m) e s)
  | _ => x
  end.

(** [Math.floor]. A value with a non-negative exponent is an integer. *)
Definition Math_floor (x : float) : float :=
  match Prim2SF x with
  | S754_finite s m e =>
      if 0 <=? e then x
      else
        let q := Z.shiftr (Zpos m) (- e) in
        let exact := Zpos m =? Z.shiftl q (- e) in
        if s then of_Z (- (if exact then q else q + 1)) else of_Z q
  | _ => x
  end.

(** [ToInt32] on a number, as applied to the operands of [&]: NaN, the
    infinities and the zeros give 0, otherwise truncate and wrap. *)
Definition ToInt32 (x : float) : Z :=
  match Prim2SF x with
  | S754_finite s m e =>
      let n := if 0 <=? e then Z.shiftl (Zpos m) e else Z.shiftr (Zpos m) (- e) in
      JS.ToInt32 (if s then - n else n)
  | _ => 0
  end.

(** [Math.min(a, b)] and [Math.max(a, b)]: NaN if either is NaN; the
    running extreme starts at [a] and is replaced by [b] when [b] is the
    zero of the other sign or strictly beyond it. *)
Definition Math_min (a b : float) : float :=
  if is_nan a || is_nan b then nan
  else
    match Prim2SF a, Prim2SF b with
    | S754_zero false, S754_zero true => b
    | _, _ => if (b <? a)%float then b else a
    end.

Definition Math_max (a b : float) : float :=
  if is_nan a || is_nan b then nan
  else
    match Prim2SF a, Prim2SF b with
    | S754_zero true, S754_zero false => b
    | _, _ => if (a <? b)%float then b else a
    end.

(** [Number.isFinite]. *)
Definition isFinite (x : float) : bool :=
  match Prim2SF x with
  | S754_finite _ _ _ | S754_zero _ => true
  | _ => false
  end.

End Float64.

#[export] Instance float_num : Num float := {
  num_of_Z := Float64.of_Z;
  nadd := PrimFloat.add;
  nsub := PrimFloat.sub;
  nmul := PrimFloat.mul;
  ndiv := PrimFloat.div;
  nlt := PrimFloat.ltb;
  nfround := Float64.fround
}.

(** ** TinyPlanet: the field evaluator *)

Module Planet.
Import JS Float64.

(** [THREE.Vector3]. *)
Record Vector3 := mkVector3 { vx : float; vy : float; vz : float }.

(** An entry of [this.modifications]. *)
Record Modification := mkModification {
  position : Vector3;
  mod_radius : float;
  add : bool
}.

(** The base table of [initNoise]. *)
Definition p : list Z :=
  [151;160;137;91;90;15;131;13;201;95;96;53;194;233;7;225;140;36;103;30;69;
   142;8;99;37;240;21;10;23;190;6;148;247;120;234;75;0;26;197;62;94;252;219;
   203;117;35;11;32;57;177;33;88;237;149;56;87;174;20;125;136;171;168;68;175;
   74;165;71;134;139;48;27;166;77;146;158;231;83;111;229;122;60;211;133;230;
   220;105;92;41;55;46;245;40;244;102;143;54;65;25;63;161;1;216;80;73;209;76;
   132;187;208;89;18;169;200;196;135;130;116;188;159;86;164;100;109;198;173;
   186;3;64;52;217;226;250;124;123;5;202;38;147;118;126;255;82;85;212;207;206;
   59;227;47;16;58;17;182;189;28;42;223;183;170;213;119;248;152;2;44;154;163;
   70;221;153;101;155;167;43;172;9;129;22;39;253;19;98;108;110;79;113;224;232;
   178;185;112;104;218;246;97;228;251;34;242;193;238;210;144;12;191;179;162;
   241;81;51;145;235;249;14;239;107;49;192;214;31;181;199;106;157;184;84;204;
   176;115;121;50;45;127;4;150;254;138;236;205;93;222;114;67;29;24;72;243;141;
   128;195;78;66;215;61;156;180].

(** [initNoise]: [perm[i] = perm[i + 256] = p[i]] on a [Uint8Array(512)]
    (a store keeps the low 8 bits). *)
Definition initNoise : list Z :=
  foldl (fun perm i =>
           let b := get p i mod 256 in
           set (set perm (i + 256) b) i b)
        (replicate 512 0) (seqZ 0 256).

Section Noise.
Local Open Scope float_scope.
Local Set Warnings "-inexact-float".

Definition fade (t : float) : float := t * t * t * (t * (t * 6 - 15) + 10).

Definition lerp (a b t : float) : float := a + t * (b - a).

Definition grad (hash : Z) (x y z : float) : float :=
  let h := band hash 15 in
  let u := if (h <? 8)%Z then x else y in
  let v := if (h <? 4)%Z then y
           else if (h =? 12)%Z || (h =? 14)%Z then x else z in
  (if (band h 1 =? 0)%Z then u else - u) + (if (band h 2 =? 0)%Z then v else - v).

Definition noise3D (perm : list Z) (x y z : float) : float :=
  let X := band (ToInt32 (Math_floor x)) 255 in
  let Y := band (ToInt32 (Math_floor y)) 255 in
  let Z := band (ToInt32 (Math_floor z)) 255 in
  let x := x - Math_floor x in
  let y := y - Math_floor y in
  let z := z - Math_floor z in
  let u := fade x in
  let v := fade y in
  let w := fade z in
  let A := (get perm X + Y)%Z in
  let AA := (get perm A + Z)%Z in
  let AB := (get perm (A + 1) + Z)%Z in
  let B := (get perm (X + 1) + Y)%Z in
  let BA := (get perm B + Z)%Z in
  let BB := (get perm (B + 1) + Z)%Z in
  lerp
    (lerp
       (lerp (grad (get perm AA) x y z) (grad (get perm BA) (x - 1) y z) u)
       (lerp (grad (get perm AB) x (y - 1) z) (grad (get perm BB) (x - 1) (y - 1) z) u)
       v)
    (lerp
       (lerp (grad (get perm (AA + 1)) x y (z - 1))
             (grad (get perm (BA + 1)) (x - 1) y (z - 1)) u)
       (lerp (grad (get perm (AB + 1)) x (y - 1) (z - 1))
             (grad (get perm (BB + 1)) (x - 1) (y - 1) (z - 1)) u)
       v)
    w.

(** The planet: the fields of [TinyPlanet] the field evaluator and the
    edit operations read or write. [mesh] holds what [generateMesh] last
    extracted. *)
Record TinyPlanet := mkTinyPlanet {
  center : Vector3;
  radius : float;
  resolution : Z;
  modifications : list Modification;
  surfaceNets : SurfaceNets;
  perm : list Z;
  mesh : list (vec3 float) * list Extract.face
}.

(** [sdf], lines 80-118: the sphere with the four terrain layers
    subtracted. [Math.pow(ridged, 2)] is the product [ridged * ridged]. *)
Definition terrain (this : TinyPlanet) (x y z : float) : float :=
  let dx := x - vx (center this) in
  let dy := y - vy (center this) in
  let dz := z - vz (center this) in
  let distFromCenter := sqrt (dx * dx + dy * dy + dz * dz) in
  let dist := distFromCenter - radius this in
  let nx := dx / distFromCenter in
  let ny := dy / distFromCenter in
  let nz := dz / distFromCenter in
  let continentNoise := noise3D (perm this) (nx * 2) (ny * 2) (nz * 2) in
  let continentHeight := continentNoise * radius this * 0.08 in
  let mountainNoise1 :=
    noise3D (perm this) (nx * 4 + 50) (ny * 4 + 50) (nz * 4 + 50) in
  let ridged := 1.0 - abs mountainNoise1 in
  let mountainHeight := ridged * ridged * radius this * 0.15 in
  let hillNoise := noise3D (perm this) (nx * 10) (ny * 10) (nz * 10) in
  let hillHeight := hillNoise * radius this * 0.03 in
  let microNoise1 := noise3D (perm this) (nx * 25) (ny * 25) (nz * 25) in
  let microNoise2 := noise3D (perm this) (nx * 50) (ny * 50) (nz * 50) in
  let microHeight := (microNoise1 * 0.015 + microNoise2 * 0.008) * radius this in
  let dist := dist - continentHeight in
  let dist := dist - mountainHeight in
  let dist := dist - hillHeight in
  let dist := dist - microHeight in
  dist.

(** [sdf], lines 122-131: the body of the loop over the modifications. *)
Definition apply_modification (x y z : float) (dist : float)
    (m : Modification) : float :=
  let mdx := x - vx (position m) in
  let mdy := y - vy (position m) in
  let mdz := z - vz (position m) in
  let modDist := sqrt (mdx * mdx + mdy * mdy + mdz * mdz) - mod_radius m in
  if add m then Math_min dist modDist else Math_max dist (- modDist).

(** [sdf(x, y, z)]. *)
Definition sdf (this : TinyPlanet) (x y z : float) : float :=
  foldl (apply_modification x y z) (terrain this x y z) (modifications this).

(** [generateMesh], lines 138-152: the extraction over the padded
    bounding box; the scene and the colouring are outside the model. *)
Definition generateMesh (this : TinyPlanet) : TinyPlanet :=
  let padding := radius this * 0.3 in
  let bounds :=
    (V3 (vx (center this) - radius this - padding)
        (vy (center this) - radius this - padding)
        (vz (center this) - radius this - padding),
     V3 (vx (center this) + radius this + padding)
        (vy (center this) + radius this + padding)
        (vz (center this) + radius this + padding)) in
  let result :=
    fst (Extract.extract (W := unit) (surfaceNets this)
           (fun x y z => ret (sdf this x y z)) bounds (resolution this) tt) in
  mkTinyPlanet (center this) (radius this) (resolution this)
               (modifications this) (surfaceNets this) (perm this) result.

(** The constructor; [resolution] defaults to 64. *)
Definition new_TinyPlanet (center : Vector3) (radius : float)
    (resolution : option Z) : TinyPlanet :=
  generateMesh
    (mkTinyPlanet center radius (default 64%Z resolution) []
                  new_SurfaceNets initNoise ([], [])).

(** [this.modifications.push(m)]. *)
Definition push_modification (this : TinyPlanet) (m : Modification)
    : TinyPlanet :=
  mkTinyPlanet (center this) (radius this) (resolution this)
               (modifications this ++ [m]) (surfaceNets this) (perm this)
               (mesh this).

(** [mine(position, radius = 2)] and [place(position, radius = 2)]. *)
Definition mine (this : TinyPlanet) (pos : Vector3) (r : option float)
    : TinyPlanet :=
  generateMesh (push_modification this (mkModification pos (default 2 r) false)).

Definition place (this : TinyPlanet) (pos : Vector3) (r : option float)
    : TinyPlanet :=
  generateMesh (push_modification this (mkModification pos (default 2 r) true)).

(** [getDistance(position)]. *)
Definition getDistance (this : TinyPlanet) (pos : Vector3) : float :=
  sdf this (vx pos) (vy pos) (vz pos).

End Noise.

End Planet.

(** ** Vocabulary of the statements *)

(** The endpoints of edge [j] in the table of the constructor. *)
Definition edge_from (j : Z) : Z := JS.get (cubeEdges new_SurfaceNets) (2 * j).
Definition edge_to (j : Z) : Z := JS.get (cubeEdges new_SurfaceNets) (2 * j + 1).

(** Two corners of the cube are joined when their indices differ in exactly
    one of the three bits. *)
Definition joined (a b : Z) : bool :=
  let d := Z.lxor a b in (d =? 1) || (d =? 2) || (d =? 4).

(** The edges whose bit is set in a 12-bit edge mask. *)
Definition crossing_edges (edgeMask : Z) : list Z :=
  List.filter (Z.testbit edgeMask) (seqZ 0 12).

(** A field with an observer: every invocation is appended, with its
    arguments, to a log carried next to the world of the field. *)
Definition traced {F W : Type} (f : Extract.field F W)
    : Extract.field F (W * list (vec3 F)) :=
  fun x y z '(w, log) =>
    let '(val, w1) := f x y z w in (val, (w1, log ++ [V3 x y z])).

(** The invocations of the field during one extraction, in order. *)
Definition invocations {F W : Type} {num : Num F} (sn : SurfaceNets)
    (f : Extract.field F W) (bounds : vec3 F * vec3 F) (resolution : Z)
    (w : W) : list (vec3 F) :=
  snd (snd (Extract.extract sn (traced f) bounds resolution (w, []))).

(** A face refers to existing vertices when its three indices are below the
    number [n] of vertices. *)
Definition face_ok (n : nat) (f : Extract.face) : Prop :=
  (f.1.1 < n)%nat /\ (f.1.2 < n)%nat /\ (f.2 < n)%nat.

(** The invariant of the loop nest: the vertex buffer and the faces only
    hold indices of vertices already pushed. *)
Definition indices_ok {F : Type} (st : Extract.state F) : Prop :=
  map_Forall (fun _ i => (i < length (Extract.vertices st))%nat)
             (Extract.vertexBuffer st) /\
  Forall (face_ok (length (Extract.vertices st))) (Extract.faces st).

(** A field that is constant but for one invocation: the world counts the
    invocations, and invocation number [k] returns [inside]. *)
Definition nth_call_field {F : Type} (k : nat) (inside outside : F)
    : Extract.field F nat :=
  fun _ _ _ n => (if (n =? k)%nat then inside else outside, S n).

(** The four cells whose vertices a quad joins, for each of the three
    stitched edges of cell [(x, y, z)]. *)
Definition quad_x_keys (x y z : Z) : list string :=
  [Extract.getKey x y z; Extract.getKey x (y - 1) z;
   Extract.getKey x (y - 1) (z - 1); Extract.getKey x y (z - 1)].
Definition quad_y_keys (x y z : Z) : list string :=
  [Extract.getKey x y z; Extract.getKey x y (z - 1);
   Extract.getKey (x - 1) y (z - 1); Extract.getKey (x - 1) y z].
Definition quad_z_keys (x y z : Z) : list string :=
  [Extract.getKey x y z; Extract.getKey (x - 1) y z;
   Extract.getKey (x - 1) (y - 1) z; Extract.getKey x (y - 1) z].

(** One of the cells of a quad has no vertex in the buffer. *)
Definition vertex_missing (vb : gmap string nat) (keys : list string) : Prop :=
  exists k, k ∈ keys /\ vb !! k = None.

(** The planet of the application ([createPlanet] in [js/main.js]). *)
Definition mote_planet : Planet.TinyPlanet :=
  Planet.new_TinyPlanet (Planet.mkVector3 0 0 0) 25 (Some 120).

(** The distance from a point to the sphere of a modification. *)
Definition distanceToModSphere (x y z : float) (m : Planet.Modification) : float :=
  let mdx := (x - Planet.vx (Planet.position m))%float in
  let mdy := (y - Planet.vy (Planet.position m))%float in
  let mdz := (z - Planet.vz (Planet.position m))%float in
  (sqrt (mdx * mdx + mdy * mdy + mdz * mdz) - Planet.mod_radius m)%float.

(** The fold of the design document: starting from [dist], each
    modification in turn replaces the running distance by a minimum (Add)
    or by a maximum with the negated distance (Subtract). *)
Fixpoint fold_modifications (x y z : float) (dist : float)
    (mods : list Planet.Modification) : float :=
  match mods with
  | [] => dist
  | m :: rest =>
      fold_modifications x y z
        (if Planet.add m
         then Float64.Math_min dist (distanceToModSphere x y z m)
         else Float64.Math_max dist (- distanceToModSphere x y z m)%float)
        rest
  end.

(** The vertex of a cell as the design document defines it. *)
Section VertexSpec.
Context {F : Type} {num : Num F}.
Local Open Scope num_scope.

(** The coordinate, 0 or 1, of corner [e] of the unit cube on axis [j]. *)
Definition corner_coord (e j : Z) : Z := if Z.testbit e j then 1 else 0.

(** The 12 edges of the cube: the pairs of corners whose indices differ in
    exactly one bit, each from its lower to its higher corner, in
    lexicographic order. *)
Definition cube_edge_pairs : list (Z * Z) :=
  a ← seqZ 0 8; b ← seqZ 0 8; if (a <? b)%Z && joined a b then [(a, b)] else [].

(** The edges crossed under a corner mask: those whose two corners differ
    in sign. *)
Definition crossed_edges (mask : Z) : list (Z * Z) :=
  List.filter (fun e => xorb (Z.testbit mask e.1) (Z.testbit mask e.2))
              cube_edge_pairs.

(** The sample of corner [c] among the 8 samples [s] of a cell. *)
Definition sample (s : list F) (c : Z) : F := nth (Z.to_nat c) s (of_int 0).

(** Coordinate [j], in the unit cube, of the zero crossing of edge [e]:
    on the axis along which the edge runs, the linear interpolation
    between the coordinates of its two corners at [t = s0 / (s0 - s1)];
    on the two other axes, the coordinate, 0 or 1, that both corners
    have. *)
Definition crossing_coord (s : list F) (e : Z * Z) (j : Z) : F :=
  let s0 := sample s e.1 in
  let s1 := sample s e.2 in
  let t := s0 / (s0 - s1) in
  if xorb (Z.testbit e.1 j) (Z.testbit e.2 j)
  then (if Z.testbit e.1 j then of_int 1 - t else t)
  else of_int (corner_coord e.1 j).

(** The running sum, from 0, of coordinate [j] of the crossings, and the
    number of crossing edges. *)
Definition crossing_sum (s : list F) (mask j : Z) : F :=
  foldl nadd (of_int 0) ((fun e => crossing_coord s e j) <$> crossed_edges mask).

Definition crossing_count (mask : Z) : Z := Z.of_nat (length (crossed_edges mask)).

(** The cell size on axis [j]: the extent of the bounds divided by
    [resolution - 1]. *)
Definition cell_size (bounds : vec3 F * vec3 F) (resolution j : Z) : F :=
  (vget (snd bounds) j - vget (fst bounds) j) / of_int (resolution - 1).

(** The vertex as the design document defines it: the origin of the cell
    plus the mean, the sum divided by the number of crossing edges, scaled
    by the cell size. *)
Definition mean_vertex (bounds : vec3 F * vec3 F) (resolution x y z : Z)
    (s : list F) (mask : Z) : vec3 F :=
  let coord (c j : Z) :=
    (vget (fst bounds) j + of_int c * cell_size bounds resolution j)
    + (crossing_sum s mask j / of_int (crossing_count mask))
      * cell_size bounds resolution j in
  V3 (coord x 0) (coord y 1) (coord z 2).


(** The samples and the corner mask that [cell] reads at [(x, y, z)]. *)
Definition cell_samples {W : Type} (f : Extract.field F W)
    (bounds : vec3 F * vec3 F) (resolution x y z : Z) (gr0 : list F) (w : W)
    : list F * Z :=
  let scale := Extract.cell_scale bounds resolution in
  fst (Extract.sample_corners f
         (c0 (fst bounds) + of_int x * c0 scale)
         (c1 (fst bounds) + of_int y * c1 scale)
         (c2 (fst bounds) + of_int z * c2 scale) scale gr0 w).

End VertexSpec.

(** A computation over a logged world appends exactly [n] entries to the
    log. *)
Definition appends {F W B : Type} (m : M (W * list (vec3 F)) B) (n : nat) : Prop :=
  forall w log, length (snd (snd (m (w, log)))) = (length log + n)%nat.

(** The computation [m'] over a logged world does what [m] does over the
    plain world: same result, same final world. *)
Definition same_run {F W B : Type} (m' : M (W * list (vec3 F)) B) (m : M W B)
    : Prop :=
  forall w log, fst (m' (w, log)) = fst (m w) /\ fst (snd (m' (w, log))) = snd (m w).

(** [~mask & 0xFF]. *)
Definition complement_mask (mask : Z) : Z :=
  JS.band (Z.lnot (JS.ToInt32 mask)) 255.

(** The scenario of the design document: a plain sphere of radius 10 about
    the origin, in the bounds [(-15, -15, -15), (15, 15, 15)]. *)
Definition sphere_field : Extract.field float unit :=
  fun x y z => ret (sqrt (x * x + y * y + z * z) - 10)%float.
Definition sphere_bounds : vec3 float * vec3 float :=
  (V3 (-15) (-15) (-15), V3 15 15 15)%float.

(** ** Vocabulary of the further properties *)

(** A string holds a comma. *)
Fixpoint has_comma (s : string) : bool :=
  match s with
  | EmptyString => false
  | String c s1 => Ascii.eqb c ","%char || has_comma s1
  end.

(** A field without effects, as [generateMesh] passes one:
    [(x, y, z) => this.sdf(x, y, z)]. *)
Definition pure_field {F W : Type} (f : F -> F -> F -> F) : Extract.field F W :=
  fun x y z => ret (f x y z).

(** The position of corner [g] of the cell at [(xPos, yPos, zPos)]: bit 0
    of [g] is the offset on x, bit 1 on y, bit 2 on z. *)
Definition corner_position {F : Type} {num : Num F} (xPos yPos zPos : F)
    (scale : vec3 F) (g : Z) : vec3 F :=
  V3 (nadd xPos (nmul (of_int (corner_coord g 0)) (c0 scale)))
     (nadd yPos (nmul (of_int (corner_coord g 1)) (c1 scale)))
     (nadd zPos (nmul (of_int (corner_coord g 2)) (c2 scale))).

(** The values of a pure field at the 8 corners of a cell, in corner
    order. *)
Definition corner_values {F : Type} {num : Num F} (f : F -> F -> F -> F)
    (xPos yPos zPos : F) (scale : vec3 F) : list F :=
  (fun g => let p := corner_position xPos yPos zPos scale g in
            f (c0 p) (c1 p) (c2 p)) <$> seqZ 0 8.

(** The corner mask of a list of values: bit [g] is set when value [g] is
    negative. *)
Fixpoint mask_of {F : Type} {num : Num F} (vals : list F) : Z :=
  match vals with
  | [] => 0
  | v :: rest => (if nlt v (of_int 0) then 1 else 0) + 2 * mask_of rest
  end.

(** A triangle whose first index is above its two other indices, which
    differ. *)
Definition proper_triangle (f : Extract.face) : Prop :=
  (f.1.2 < f.1.1)%nat /\ (f.2 < f.1.1)%nat /\ f.1.2 <> f.2.

(** The vertex buffer holds each index at most once, and only indices of
    vertices already pushed; the faces are proper triangles. *)
Definition buffer_ok {F : Type} (st : Extract.state F) : Prop :=
  map_Forall (fun _ i => (i < length (Extract.vertices st))%nat)
             (Extract.vertexBuffer st) /\
  (forall k1 k2 i, Extract.vertexBuffer st !! k1 = Some i ->
                   Extract.vertexBuffer st !! k2 = Some i -> k1 = k2) /\
  Forall proper_triangle (Extract.faces st).

(** The rank of a binary64 value that is not NaN: comparing two values is
    comparing their ranks in lexicographic order. *)
Definition SFrank (f : spec_float) : option (Z * Z * Z) :=
  match f with
  | S754_nan => None
  | S754_infinity true => Some (-2, 0, 0)
  | S754_infinity false => Some (2, 0, 0)
  | S754_zero _ => Some (0, 0, 0)
  | S754_finite true m e => Some (-1, - e, - Zpos m)
  | S754_finite false m e => Some (1, e, Zpos m)
  end.

Definition rank_lt (p q : Z * Z * Z) : Prop :=
  p.1.1 < q.1.1 \/ (p.1.1 = q.1.1 /\ (p.1.2 < q.1.2 \/ (p.1.2 = q.1.2 /\ p.2 < q.2))).

Definition rank (x : float) : option (Z * Z * Z) := SFrank (Prim2SF x).

(** Two results of the field evaluator are the same number: equal as
    numbers ([+0] and [-0] are), or both NaN. *)
Definition same_number (a b : float) : Prop :=
  (a =? b)%float = true \/ (is_nan a = true /\ is_nan b = true).

(** The values a gradient takes at the corners of a lattice cell, and
    those among them that are zero. *)
Definition lattice_value (a : float) : Prop :=
  (a = 0 \/ a = neg_zero \/ a = 1 \/ a = -1 \/ a = 2 \/ a = -2)%float.

Definition zero_value (a : float) : Prop := (a = 0 \/ a = neg_zero)%float.

(** The cells in the order in which the loop nest visits them: [z]
    outermost, [x] innermost. *)
Definition loop_cells (resolution : Z) : list (Z * Z * Z) :=
  z ← seqZ 0 (resolution - 1);
  y ← seqZ 0 (resolution - 1);
  x ← seqZ 0 (resolution - 1);
  [(x, y, z)].

(** What [cell] computes at cell [c = (x, y, z)] for a field without
    effects, as functions of the cell alone: the origin of the cell, the
    values at its 8 corners, whether the corner mask is neither 0 nor 255,
    and the vertex pushed in that case (lines 86-120). *)
Section PureCells.
Context {F : Type} {num : Num F}.
Local Open Scope num_scope.

Definition cell_origin (bounds : vec3 F * vec3 F) (resolution : Z)
    (c : Z * Z * Z) : vec3 F :=
  let scale := Extract.cell_scale bounds resolution in
  V3 (c0 (fst bounds) + of_int c.1.1 * c0 scale)
     (c1 (fst bounds) + of_int c.1.2 * c1 scale)
     (c2 (fst bounds) + of_int c.2 * c2 scale).

Definition cell_values (f : F -> F -> F -> F) (bounds : vec3 F * vec3 F)
    (resolution : Z) (c : Z * Z * Z) : list F :=
  let o := cell_origin bounds resolution c in
  corner_values f (c0 o) (c1 o) (c2 o) (Extract.cell_scale bounds resolution).

Definition crossing_cell (f : F -> F -> F -> F) (bounds : vec3 F * vec3 F)
    (resolution : Z) (c : Z * Z * Z) : bool :=
  let mask := mask_of (cell_values f bounds resolution c) in
  negb ((mask =? 0)%Z || (mask =? 255)%Z).

Definition cell_vertex (sn : SurfaceNets) (f : F -> F -> F -> F)
    (bounds : vec3 F * vec3 F) (resolution : Z) (c : Z * Z * Z) : vec3 F :=
  let scale := Extract.cell_scale bounds resolution in
  let o := cell_origin bounds resolution c in
  let gr := nfround <$> cell_values f bounds resolution c in
  let edgeMask := JS.get (edgeTable sn) (mask_of (cell_values f bounds resolution c)) in
  let '(v, vertCount) := Extract.accumulate_edges sn edgeMask gr in
  let s := of_int 1 / of_int vertCount in
  V3 (c0 o + c0 v * s * c0 scale)
     (c1 o + c1 v * s * c1 scale)
     (c2 o + c2 v * s * c2 scale).

End PureCells.

(** * Properties *)

(** ** Checking a property on a range of integers by evaluation *)

Lemma forall_range (P : Z -> bool) (lo len : Z) :
  forallb P (seqZ lo len) = true ->
  forall i, lo <= i < lo + len -> P i = true.
Proof.
  intros Hall i Hi. rewrite forallb_forall in Hall.
  apply Hall, list_elem_of_In, elem_of_seqZ. exact Hi.
Qed.

Lemma forall_range2 (P : Z -> Z -> bool) (lo1 len1 lo2 len2 : Z) :
  forallb (fun i => forallb (P i) (seqZ lo2 len2)) (seqZ lo1 len1) = true ->
  forall i j, lo1 <= i < lo1 + len1 -> lo2 <= j < lo2 + len2 -> P i j = true.
Proof.
  intros Hall i j Hi Hj.
  apply (forall_range (P i) lo2 len2); [|exact Hj].
  apply (forall_range (fun i => forallb (P i) (seqZ lo2 len2)) lo1 len1 Hall i Hi).
Qed.

(** ** The tables of [init] *)

Section TableFacts.
Import JS.


Lemma edgeTable_length : length (edgeTable new_SurfaceNets) = 256%nat.
Proof. vm_compute. reflexivity. Qed.

(** The 24-entry table lists each of the 12 edges of the cube once, from
    its lower to its higher corner. *)
Lemma cube_topology (a b : Z) :
  0 <= a < 8 -> 0 <= b < 8 ->
  (a < b /\ joined a b = true) <->
  (exists j, 0 <= j < 12 /\ edge_from j = a /\ edge_to j = b).
Proof.
  intros Ha Hb.
  assert (Hdec : bool_decide (a < b /\ joined a b = true) =
                 existsb (fun j => (edge_from j =? a) && (edge_to j =? b)) (seqZ 0 12)).
  { revert a b Ha Hb.
    pose (P := fun a b : Z =>
                 eqb (bool_decide (a < b /\ joined a b = true))
                     (existsb (fun j => (edge_from j =? a) && (edge_to j =? b)) (seqZ 0 12))).
    intros a b Ha Hb.
    apply eqb_prop. apply (forall_range2 P 0 8 0 8); [vm_compute; reflexivity|lia|lia]. }
  split.
  - intros H. assert (Ht : bool_decide (a < b /\ joined a b = true) = true)
      by (apply bool_decide_eq_true; exact H).
    rewrite Hdec in Ht. apply existsb_exists in Ht as (j & Hj & Hjab).
    apply list_elem_of_In, elem_of_seqZ in Hj.
    apply andb_true_iff in Hjab as [H1 H2].
    exists j. split; [lia|]. split; lia.
  - intros (j & Hj & H1 & H2).
    apply (bool_decide_eq_true_1 _). rewrite Hdec.
    apply existsb_exists. exists j. split.
    + apply list_elem_of_In, elem_of_seqZ. lia.
    + apply andb_true_iff. split; lia.
Qed.

Lemma edge_bit_spec (i j : Z) :
  0 <= i < 256 -> 0 <= j < 12 ->
  Z.testbit (get (edgeTable new_SurfaceNets) i) j =
  xorb (Z.testbit i (edge_from j)) (Z.testbit i (edge_to j)).
Proof.
  intros Hi Hj. apply eqb_prop.
  apply (forall_range2
           (fun i j => eqb (Z.testbit (get (edgeTable new_SurfaceNets) i) j)
                           (xorb (Z.testbit i (edge_from j)) (Z.testbit i (edge_to j))))
           0 256 0 12); [vm_compute; reflexivity|lia|lia].
Qed.

Lemma edge_entry_range (i : Z) :
  0 <= i < 256 -> 0 <= get (edgeTable new_SurfaceNets) i < 4096.
Proof.
  intros Hi.
  assert (H : (0 <=? get (edgeTable new_SurfaceNets) i) &&
              (get (edgeTable new_SurfaceNets) i <? 4096) = true).
  { apply (forall_range
             (fun i => (0 <=? get (edgeTable new_SurfaceNets) i) &&
                       (get (edgeTable new_SurfaceNets) i <? 4096)) 0 256);
      [vm_compute; reflexivity|lia]. }
  apply andb_true_iff in H. lia.
Qed.

(** C4. The edge table built by [init] has 256 entries of 12 bits; bit
    [j] of entry [i] is set exactly when the two corners of edge [j]
    differ in inside/outside status under the corner mask [i], where the
    12 edges are the pairs of corners that differ in exactly one bit; in
    particular the entries of the masks 0x00 and 0xFF are zero. *)
Theorem C4_edge_table_bits (i j : Z) :
  0 <= i < 256 -> 0 <= j < 12 ->
  length (edgeTable new_SurfaceNets) = 256%nat /\
  0 <= get (edgeTable new_SurfaceNets) i < 4096 /\
  (Z.testbit (get (edgeTable new_SurfaceNets) i) j = true <->
   Z.testbit i (edge_from j) <> Z.testbit i (edge_to j)) /\
  (forall a b, 0 <= a < 8 -> 0 <= b < 8 ->
     (a < b /\ joined a b = true) <->
     (exists k, 0 <= k < 12 /\ edge_from k = a /\ edge_to k = b)) /\
  get (edgeTable new_SurfaceNets) 0 = 0 /\
  get (edgeTable new_SurfaceNets) 255 = 0.
Proof.
  intros Hi Hj. split; [apply edgeTable_length|].
  split; [apply edge_entry_range, Hi|].
  split.
  - rewrite (edge_bit_spec i j Hi Hj).
    destruct (Z.testbit i (edge_from j)), (Z.testbit i (edge_to j)); simpl;
      split; congruence.
  - split; [exact cube_topology|]. split; vm_compute; reflexivity.
Qed.

Lemma C4_edge_table_bits_witness :
  length (edgeTable new_SurfaceNets) = 256%nat /\
  0 <= get (edgeTable new_SurfaceNets) 5 < 4096 /\
  (Z.testbit (get (edgeTable new_SurfaceNets) 5) 3 = true <->
   Z.testbit 5 (edge_from 3) <> Z.testbit 5 (edge_to 3)) /\
  (forall a b, 0 <= a < 8 -> 0 <= b < 8 ->
     (a < b /\ joined a b = true) <->
     (exists k, 0 <= k < 12 /\ edge_from k = a /\ edge_to k = b)) /\
  get (edgeTable new_SurfaceNets) 0 = 0 /\
  get (edgeTable new_SurfaceNets) 255 = 0.
Proof. apply (C4_edge_table_bits 5 3); lia. Defined.

(** C6. The entry of the complemented mask [~mask & 0xFF] is the entry of
    the mask. *)
Theorem C6_complement_symmetry (mask : Z) :
  0 <= mask < 256 ->
  get (edgeTable new_SurfaceNets) (complement_mask mask) =
  get (edgeTable new_SurfaceNets) mask.
Proof.
  intros Hm. apply Z.eqb_eq.
  apply (forall_range
           (fun m => get (edgeTable new_SurfaceNets) (complement_mask m) =?
                     get (edgeTable new_SurfaceNets) m) 0 256);
    [vm_compute; reflexivity|lia].
Qed.

Lemma C6_complement_symmetry_witness :
  get (edgeTable new_SurfaceNets) (complement_mask 0x2B) =
  get (edgeTable new_SurfaceNets) 0x2B.
Proof. apply (C6_complement_symmetry 0x2B). lia. Defined.

End TableFacts.

(** ** The vertex of a cell *)

Section VertexFacts.
Import JS Extract.
Context {F : Type} {num : Num F}.

Lemma edge_bit_test (edgeMask i : Z) :
  0 <= edgeMask < 4096 -> 0 <= i < 12 ->
  truthy (band edgeMask (shl 1 i)) = Z.testbit edgeMask i.
Proof.
  intros He Hi. apply eqb_prop.
  apply (forall_range2
           (fun e i => eqb (truthy (band e (shl 1 i))) (Z.testbit e i))
           0 4096 0 12); [vm_compute; reflexivity|lia|lia].
Qed.

Lemma edge_steps_count (sn : SurfaceNets) (edgeMask : Z) (gr : list F)
    (l : list Z) (acc : vec3 F * Z) :
  snd (foldl (edge_step sn edgeMask gr) acc l) =
  snd acc + Z.of_nat (length (List.filter (fun i => truthy (band edgeMask (shl 1 i))) l)).
Proof.
  revert acc. induction l as [|i l IH]; intros [v n]; simpl.
  - lia.
  - rewrite IH. unfold edge_step.
    destruct (truthy (band edgeMask (shl 1 i))); simpl; lia.
Qed.

Lemma filter_ext_in_range (f g : Z -> bool) (lo len : Z) :
  (forall i, lo <= i < lo + len -> f i = g i) ->
  List.filter f (seqZ lo len) = List.filter g (seqZ lo len).
Proof.
  intros H. apply List.filter_ext_in. intros i Hi.
  apply H, elem_of_seqZ, list_elem_of_In, Hi.
Qed.

(** [vertCount] is the number of set bits of the edge mask. *)
Lemma accumulate_edges_count (sn : SurfaceNets) (edgeMask : Z) (gr : list F) :
  0 <= edgeMask < 4096 ->
  snd (accumulate_edges sn edgeMask gr) = Z.of_nat (length (crossing_edges edgeMask)).
Proof.
  intros He. unfold accumulate_edges. rewrite edge_steps_count.
  cbn [snd]. rewrite Z.add_0_l. unfold crossing_edges.
  rewrite (filter_ext_in_range (fun i => truthy (band edgeMask (shl 1 i)))
             (Z.testbit edgeMask)); [reflexivity|].
  intros i Hi. apply edge_bit_test; lia.
Qed.

Lemma crossing_mask_has_edge (mask : Z) :
  0 < mask < 255 ->
  (1 <= length (crossing_edges (get (edgeTable new_SurfaceNets) mask)))%nat.
Proof.
  intros Hm. apply Nat.leb_le.
  apply (forall_range
           (fun m => (1 <=? length (crossing_edges (get (edgeTable new_SurfaceNets) m)))%nat)
           1 254); [vm_compute; reflexivity|lia].
Qed.

(** C8. For a corner mask strictly between 0x00 and 0xFF the entry of the
    edge table has a set bit, so [vertCount], the divisor of the average,
    is at least 1 (and at most 12) whatever the samples are. *)
Theorem C8_crossing_cell_divisor_nonzero (mask : Z) (gr : list F) :
  0 < mask < 255 ->
  let edgeMask := get (edgeTable new_SurfaceNets) mask in
  edgeMask <> 0 /\
  (exists j, 0 <= j < 12 /\ Z.testbit edgeMask j = true) /\
  1 <= snd (accumulate_edges new_SurfaceNets edgeMask gr) <= 12.
Proof.
  intros Hm edgeMask.
  assert (Hr : 0 <= edgeMask < 4096) by (apply edge_entry_range; lia).
  pose proof (crossing_mask_has_edge mask Hm) as Hc. fold edgeMask in Hc.
  assert (Hlen : (length (crossing_edges edgeMask) <= 12)%nat).
  { unfold crossing_edges.
    etransitivity; [apply List.filter_length_le|]. rewrite length_seqZ. lia. }
  split; [|split].
  - intros H0. rewrite H0 in Hc. vm_compute in Hc. lia.
  - destruct (crossing_edges edgeMask) as [|j l] eqn:Hl; [simpl in Hc; lia|].
    assert (Hin : In j (crossing_edges edgeMask)) by (rewrite Hl; left; reflexivity).
    unfold crossing_edges in Hin. apply List.filter_In in Hin as [Hj Hb].
    apply list_elem_of_In, elem_of_seqZ in Hj. exists j. split; [lia|exact Hb].
  - rewrite accumulate_edges_count by exact Hr. lia.
Qed.

End VertexFacts.

Lemma C8_crossing_cell_divisor_nonzero_witness :
  let edgeMask := JS.get (edgeTable new_SurfaceNets) 1 in
  edgeMask <> 0 /\
  (exists j, 0 <= j < 12 /\ Z.testbit edgeMask j = true) /\
  1 <= snd (Extract.accumulate_edges (F := float) new_SurfaceNets edgeMask
              (replicate 8 0%float)) <= 12.
Proof. apply (C8_crossing_cell_divisor_nonzero (F := float) 1). lia. Defined.

(** ** Loops in the monad *)

Section LoopFacts.
Context {W A S : Type}.

Lemma forM_app (l1 l2 : list A) (body : S -> A -> M W S) (s : S) (w : W) :
  forM (l1 ++ l2) body s w =
  (let '(s1, w1) := forM l1 body s w in forM l2 body s1 w1).
Proof.
  revert s w. induction l1 as [|a l1 IH]; intros s w; simpl.
  - reflexivity.
  - unfold bind. destruct (body s a w) as [s1 w1]. apply IH.
Qed.

(** An invariant of the body is an invariant of the loop. *)
Lemma forM_invariant (I : S -> Prop) (body : S -> A -> M W S) (l : list A) :
  (forall s a w, I s -> I (fst (body s a w))) ->
  forall s w, I s -> I (fst (forM l body s w)).
Proof.
  intros Hbody. induction l as [|a l IH]; intros s w Hs; simpl.
  - exact Hs.
  - unfold bind. pose proof (Hbody s a w Hs) as H1.
    destruct (body s a w) as [s1 w1]. apply IH, H1.
Qed.

End LoopFacts.

(** ** Counting the invocations of the field *)

Section CallCount.
Import JS Extract.
Context {F : Type} {num : Num F} {W : Type}.

Lemma appends_ret {B} (b : B) :
  appends (ret b : M (W * list (vec3 F)) B) 0.
Proof. intros w log. simpl. lia. Qed.

Lemma appends_bind {B C} (m : M (W * list (vec3 F)) B)
    (k : B -> M (W * list (vec3 F)) C) (a b : nat) :
  appends m a -> (forall x, appends (k x) b) -> appends (bind m k) (a + b).
Proof.
  intros Hm Hk w log. unfold bind.
  pose proof (Hm w log) as H1. destruct (m (w, log)) as [x [w1 log1]].
  simpl in H1. rewrite (Hk x w1 log1). lia.
Qed.

Lemma appends_forM {A S} (body : S -> A -> M (W * list (vec3 F)) S)
    (l : list A) (k : nat) :
  (forall s a, appends (body s a) k) ->
  forall s, appends (forM l body s) (length l * k).
Proof.
  intros Hbody. induction l as [|a l IH]; intros s; simpl.
  - apply appends_ret.
  - apply appends_bind; [apply Hbody|apply IH].
Qed.

Lemma appends_traced (f : field F W) (x y z : F) : appends (traced f x y z) 1.
Proof.
  intros w log. unfold traced. destruct (f x y z w) as [val w1]. simpl.
  rewrite length_app. simpl. lia.
Qed.

Lemma appends_corner_step (f : field F W) xPos yPos zPos scale dz dy acc dx :
  appends (corner_step (traced f) xPos yPos zPos scale dz dy acc dx) 1.
Proof.
  unfold corner_step. destruct acc as [[gr mask] g].
  apply (appends_bind _ _ 1 0); [apply appends_traced|].
  intros val. apply appends_ret.
Qed.

Lemma appends_sample_corners (f : field F W) xPos yPos zPos scale gr :
  appends (sample_corners (traced f) xPos yPos zPos scale gr) 8.
Proof.
  unfold sample_corners.
  apply (appends_bind _ _ 8 0).
  - apply (appends_forM _ [0; 1] 4). intros acc dz.
    apply (appends_forM _ [0; 1] 2). intros acc1 dy.
    apply (appends_forM _ [0; 1] 1). intros acc2 dx.
    apply appends_corner_step.
  - intros [[gr1 mask] g]. apply appends_ret.
Qed.

Lemma appends_cell (sn : SurfaceNets) (f : field F W) bounds scale x y z st :
  appends (cell sn (traced f) bounds scale x y z st) 8.
Proof.
  unfold cell. apply (appends_bind _ _ 8 0); [apply appends_sample_corners|].
  intros [gr mask].
  destruct ((mask =? 0) || (mask =? 255)); [apply appends_ret|].
  destruct (accumulate_edges sn (get (edgeTable sn) mask) gr) as [v vertCount].
  apply appends_ret.
Qed.

Lemma appends_march (sn : SurfaceNets) (f : field F W) bounds resolution :
  appends (march sn (traced f) bounds resolution)
          (Z.to_nat (resolution - 1) *
           (Z.to_nat (resolution - 1) * (Z.to_nat (resolution - 1) * 8))).
Proof.
  unfold march. rewrite <- (length_seqZ 0 (resolution - 1)).
  apply appends_forM. intros st z.
  apply appends_forM. intros st1 y.
  apply appends_forM. intros st2 x.
  apply appends_cell.
Qed.

Lemma same_run_ret {B} (b : B) :
  same_run (ret b : M (W * list (vec3 F)) B) (ret b).
Proof. intros w log. split; reflexivity. Qed.

Lemma same_run_bind {B C} (m' : M (W * list (vec3 F)) B) (m : M W B)
    (k' : B -> M (W * list (vec3 F)) C) (k : B -> M W C) :
  same_run m' m -> (forall x, same_run (k' x) (k x)) ->
  same_run (bind m' k') (bind m k).
Proof.
  intros Hm Hk w log. unfold bind. destruct (Hm w log) as [H1 H2].
  destruct (m' (w, log)) as [x' [w1' log1]], (m w) as [x w1].
  simpl in H1, H2. subst x' w1'. apply Hk.
Qed.

Lemma same_run_forM {A S} (body' : S -> A -> M (W * list (vec3 F)) S)
    (body : S -> A -> M W S) (l : list A) :
  (forall s a, same_run (body' s a) (body s a)) ->
  forall s, same_run (forM l body' s) (forM l body s).
Proof.
  intros Hbody. induction l as [|a l IH]; intros s; simpl.
  - apply same_run_ret.
  - apply same_run_bind; [apply Hbody|apply IH].
Qed.

Lemma same_run_traced (f : field F W) (x y z : F) :
  same_run (traced f x y z) (f x y z).
Proof.
  intros w log. unfold traced. destruct (f x y z w) as [val w1].
  split; reflexivity.
Qed.

Lemma same_run_cell (sn : SurfaceNets) (f : field F W) bounds scale x y z st :
  same_run (cell sn (traced f) bounds scale x y z st)
           (cell sn f bounds scale x y z st).
Proof.
  unfold cell. apply same_run_bind.
  - unfold sample_corners. apply same_run_bind.
    + apply same_run_forM. intros acc dz.
      apply same_run_forM. intros acc1 dy.
      apply same_run_forM. intros [[gr mask] g] dx.
      unfold corner_step. apply same_run_bind; [apply same_run_traced|].
      intros val. apply same_run_ret.
    + intros [[gr mask] g]. apply same_run_ret.
  - intros [gr mask].
    destruct ((mask =? 0) || (mask =? 255)); [apply same_run_ret|].
    destruct (accumulate_edges sn (get (edgeTable sn) mask) gr) as [v vertCount].
    apply same_run_ret.
Qed.

Lemma same_run_extract (sn : SurfaceNets) (f : field F W) bounds resolution :
  same_run (extract sn (traced f) bounds resolution)
           (extract sn f bounds resolution).
Proof.
  unfold extract. apply same_run_bind; [|intros st; apply same_run_ret].
  unfold march.
  apply same_run_forM. intros st z.
  apply same_run_forM. intros st1 y.
  apply same_run_forM. intros st2 x.
  apply same_run_cell.
Qed.

(** C1, as the code has it. One extraction invokes the field exactly
    [8 * (resolution - 1)^3] times: eight corner samples for each of the
    [(resolution - 1)^3] cells, nothing cached (no invocation at all when
    [resolution < 2]). Logging the invocations changes neither the mesh
    nor the final world of the field. *)
Theorem C1_invocations_eight_per_cell (sn : SurfaceNets) (f : field F W)
    (bounds : vec3 F * vec3 F) (resolution : Z) (w : W) :
  Z.of_nat (length (invocations sn f bounds resolution w)) =
    8 * Z.max 0 (resolution - 1) ^ 3 /\
  fst (extract sn (traced f) bounds resolution (w, [])) =
    fst (extract sn f bounds resolution w).
Proof.
  split; [|apply same_run_extract].
  unfold invocations, extract.
  pose proof (appends_bind (march sn (traced f) bounds resolution)
                (fun st => ret (vertices st, faces st)) _ 0
                (appends_march sn f bounds resolution)
                (fun st => appends_ret _) w []) as H.
  rewrite H. simpl length.
  destruct (Z.max_spec 0 (resolution - 1)) as [[Hlt ->]|[Hle ->]].
  - rewrite !Nat2Z.inj_add, !Nat2Z.inj_mul, !Z2Nat.id by lia. ring.
  - replace (Z.to_nat (resolution - 1)) with 0%nat by lia. reflexivity.
Qed.

End CallCount.

(** C1, as the design document has it, fails: at resolution 3 the field is
    invoked 64 times, not 27. *)
Lemma C1_not_resolution_cubed :
  Z.of_nat (length (invocations new_SurfaceNets sphere_field sphere_bounds 3 tt))
  <> 3 ^ 3.
Proof. vm_compute. discriminate. Qed.

(** ** Face indices *)

Section FaceIndices.
Import JS Extract.
Context {F : Type} {num : Num F} {W : Type}.

Lemma face_ok_mono (n m : nat) (f : face) : (n <= m)%nat -> face_ok n f -> face_ok m f.
Proof. unfold face_ok. lia. Qed.

Lemma push_quad_ok (n : nat) (vb : gmap string nat) (fs : list face)
    (mask : Z) (k0 k1 k2 k3 : string) :
  map_Forall (fun _ i => (i < n)%nat) vb ->
  Forall (face_ok n) fs ->
  Forall (face_ok n) (push_quad fs mask (vb !! k0) (vb !! k1) (vb !! k2) (vb !! k3)).
Proof.
  intros Hvb Hfs. unfold push_quad.
  destruct (vb !! k0) as [a|] eqn:H0; [|exact Hfs].
  destruct (vb !! k1) as [b|] eqn:H1; [|exact Hfs].
  destruct (vb !! k2) as [c|] eqn:H2; [|exact Hfs].
  destruct (vb !! k3) as [d|] eqn:H3; [|exact Hfs].
  apply Hvb in H0, H1, H2, H3.
  destruct (truthy (band mask 1)); apply Forall_app; (split; [exact Hfs|]);
    repeat constructor; simpl; assumption.
Qed.

Lemma stitch_ok (n : nat) (vb : gmap string nat) (mask edgeMask x y z : Z)
    (fs : list face) :
  map_Forall (fun _ i => (i < n)%nat) vb ->
  Forall (face_ok n) fs ->
  Forall (face_ok n) (stitch_x vb mask edgeMask x y z fs) /\
  Forall (face_ok n) (stitch_y vb mask edgeMask x y z fs) /\
  Forall (face_ok n) (stitch_z vb mask edgeMask x y z fs).
Proof.
  intros Hvb Hfs. unfold stitch_x, stitch_y, stitch_z.
  repeat split;
    repeat match goal with
           | |- context [if ?c then _ else _] => destruct c
           end; try exact Hfs; apply push_quad_ok; assumption.
Qed.

Lemma cell_indices_ok (sn : SurfaceNets) (f : field F W) bounds scale x y z st w :
  indices_ok st -> indices_ok (fst (cell sn f bounds scale x y z st w)).
Proof.
  intros [Hvb Hfs]. unfold cell, bind.
  destruct (sample_corners f _ _ _ scale (grid st) w) as [[gr mask] w1].
  destruct ((mask =? 0) || (mask =? 255)); [split; assumption|].
  destruct (accumulate_edges sn (get (edgeTable sn) mask) gr) as [v vertCount].
  unfold indices_ok. cbn [fst ret vertices faces vertexBuffer].
  rewrite length_app. cbn [length].
  set (n := length (vertices st)) in *.
  assert (Hvb1 : map_Forall (fun _ i => (i < n + 1)%nat)
                   (<[getKey x y z := n]> (vertexBuffer st))).
  { apply map_Forall_insert_2; [lia|].
    intros k i Hk. specialize (Hvb k i Hk). simpl in Hvb. lia. }
  split; [exact Hvb1|].
  assert (Hfs1 : Forall (face_ok (n + 1)) (faces st)).
  { eapply Forall_impl; [exact Hfs|]. intros fc. apply face_ok_mono. lia. }
  apply stitch_ok; [exact Hvb1|]. apply stitch_ok; [exact Hvb1|].
  apply stitch_ok; assumption.
Qed.

Lemma march_indices_ok (sn : SurfaceNets) (f : field F W) bounds resolution w :
  indices_ok (fst (march sn f bounds resolution w)).
Proof.
  unfold march.
  apply (forM_invariant indices_ok).
  - intros st z w1 Hst. apply (forM_invariant indices_ok); [|exact Hst].
    intros st1 y w2 Hst1. apply (forM_invariant indices_ok); [|exact Hst1].
    intros st2 x w3 Hst2. apply cell_indices_ok, Hst2.
  - split; [apply map_Forall_empty|constructor].
Qed.

(** C10. Every face returned by [extract] refers to existing vertices:
    each of its three indices is below the number of returned vertices
    (and, a natural number, is not negative). *)
Theorem C10_face_indices_in_range (sn : SurfaceNets) (f : field F W)
    (bounds : vec3 F * vec3 F) (resolution : Z) (w : W) :
  let result := fst (extract sn f bounds resolution w) in
  Forall (face_ok (length (fst result))) (snd result).
Proof.
  intros result. subst result. unfold extract, bind.
  pose proof (march_indices_ok sn f bounds resolution w) as [_ Hfs].
  destruct (march sn f bounds resolution w) as [st w1]. exact Hfs.
Qed.

End FaceIndices.

(** ** Face stitching with a missing neighbour *)

Section MissingNeighbour.
Import JS Extract.
Context {F : Type} {num : Num F} {W : Type}.

Lemma push_quad_missing (fs : list face) (mask : Z) (vb : gmap string nat)
    (k0 k1 k2 k3 : string) :
  vertex_missing vb [k0; k1; k2; k3] ->
  push_quad fs mask (vb !! k0) (vb !! k1) (vb !! k2) (vb !! k3) = fs.
Proof.
  intros (k & Hk & Hnone). unfold push_quad.
  repeat (apply elem_of_cons in Hk as [->|Hk]; [rewrite Hnone|]);
    [..|apply elem_of_nil in Hk; contradiction];
    repeat match goal with
           | |- context [match ?o with Some _ => _ | None => _ end] => destruct o
           end; reflexivity.
Qed.

Lemma stitch_missing (vb : gmap string nat) (mask edgeMask x y z : Z)
    (fs : list face) :
  (vertex_missing vb (quad_x_keys x y z) ->
   stitch_x vb mask edgeMask x y z fs = fs) /\
  (vertex_missing vb (quad_y_keys x y z) ->
   stitch_y vb mask edgeMask x y z fs = fs) /\
  (vertex_missing vb (quad_z_keys x y z) ->
   stitch_z vb mask edgeMask x y z fs = fs).
Proof.
  unfold stitch_x, stitch_y, stitch_z, quad_x_keys, quad_y_keys, quad_z_keys.
  repeat split; intros Hmiss;
    repeat match goal with
           | |- context [if ?c then _ else _] => destruct c
           end; try reflexivity; apply push_quad_missing, Hmiss.
Qed.

(** A cell all of whose quads lack a vertex pushes no face; it still ends
    normally, with its own vertex (if any) pushed and recorded. *)
Lemma cell_missing (sn : SurfaceNets) (f : field F W) bounds scale x y z st w :
  let st' := fst (cell sn f bounds scale x y z st w) in
  let vb := <[getKey x y z := length (vertices st)]> (vertexBuffer st) in
  vertex_missing vb (quad_x_keys x y z) ->
  vertex_missing vb (quad_y_keys x y z) ->
  vertex_missing vb (quad_z_keys x y z) ->
  faces st' = faces st /\
  (vertices st' = vertices st /\ vertexBuffer st' = vertexBuffer st \/
   length (vertices st') = S (length (vertices st)) /\ vertexBuffer st' = vb).
Proof.
  cbv zeta. intros Hx Hy Hz. unfold cell, bind.
  destruct (sample_corners f _ _ _ scale (grid st) w) as [[gr mask] w1].
  destruct ((mask =? 0) || (mask =? 255)).
  - cbn. split; [reflexivity|left; split; reflexivity].
  - destruct (accumulate_edges sn (get (edgeTable sn) mask) gr) as [v vertCount].
    cbn [fst ret faces vertices vertexBuffer]. split.
    + destruct (stitch_missing (<[getKey x y z := length (vertices st)]> (vertexBuffer st))
                  mask (get (edgeTable sn) mask) x y z (faces st)) as (Sx & _ & _).
      rewrite (Sx Hx).
      destruct (stitch_missing (<[getKey x y z := length (vertices st)]> (vertexBuffer st))
                  mask (get (edgeTable sn) mask) x y z (faces st)) as (_ & Sy & Sz).
      rewrite (Sy Hy). apply (Sz Hz).
    + right. split; [|reflexivity]. rewrite length_app. cbn. lia.
Qed.

(** C7. When one of the four vertices of a quad is missing from the
    vertex buffer, stitching along that edge leaves the face list as it
    was: no face is pushed and nothing fails (the stitching blocks are
    total), whatever the masks are. The cell then ends as any other, its
    vertex pushed and recorded, and the loop nest goes on with the next
    cell. *)
Theorem C7_missing_vertex_skips_quad (sn : SurfaceNets) (f : field F W)
    (bounds : vec3 F * vec3 F) (scale : vec3 F) (st : state F) (w : W)
    (vb : gmap string nat) (mask edgeMask x y z : Z) (fs : list face) :
  ((vertex_missing vb (quad_x_keys x y z) ->
    stitch_x vb mask edgeMask x y z fs = fs) /\
   (vertex_missing vb (quad_y_keys x y z) ->
    stitch_y vb mask edgeMask x y z fs = fs) /\
   (vertex_missing vb (quad_z_keys x y z) ->
    stitch_z vb mask edgeMask x y z fs = fs)) /\
  (let st' := fst (cell sn f bounds scale x y z st w) in
   let vb' := <[getKey x y z := length (vertices st)]> (vertexBuffer st) in
   vertex_missing vb' (quad_x_keys x y z) ->
   vertex_missing vb' (quad_y_keys x y z) ->
   vertex_missing vb' (quad_z_keys x y z) ->
   faces st' = faces st /\
   (vertices st' = vertices st /\ vertexBuffer st' = vertexBuffer st \/
    length (vertices st') = S (length (vertices st)) /\ vertexBuffer st' = vb')).
Proof.
  split.
  - apply stitch_missing.
  - apply cell_missing.
Qed.

End MissingNeighbour.

Lemma C7_missing_vertex_skips_quad_witness :
  (Extract.stitch_x {["0,1,1" := 0%nat]} 2 25 0 1 1 [] = [] /\
   Extract.stitch_y {["0,1,1" := 0%nat]} 2 25 0 1 1 [] = [] /\
   Extract.stitch_z {["0,1,1" := 0%nat]} 2 25 0 1 1 [] = []) /\
  Extract.faces
    (fst (Extract.cell new_SurfaceNets sphere_field sphere_bounds
            (Extract.cell_scale sphere_bounds 8) 3 0 1 Extract.init_state tt)) = [].
Proof.
  destruct (C7_missing_vertex_skips_quad new_SurfaceNets sphere_field
              sphere_bounds (Extract.cell_scale sphere_bounds 8)
              Extract.init_state tt {["0,1,1" := 0%nat]} 2 25 3 0 1 [])
    as [_ Hcell].
  destruct (C7_missing_vertex_skips_quad new_SurfaceNets sphere_field
              sphere_bounds (Extract.cell_scale sphere_bounds 8)
              Extract.init_state tt {["0,1,1" := 0%nat]} 2 25 0 1 1 [])
    as [(Hx & Hy & Hz) _].
  split; [split; [|split]|].
  - apply Hx. exists "0,0,1". split; [|reflexivity].
    vm_compute. apply list_elem_of_In. simpl. tauto.
  - apply Hy. exists "0,1,0". split; [|reflexivity].
    vm_compute. apply list_elem_of_In. simpl. tauto.
  - apply Hz. exists "-1,1,1". split; [|reflexivity].
    vm_compute. apply list_elem_of_In. simpl. tauto.
  - apply Hcell.
    + exists "3,-1,1". split; [|reflexivity].
      vm_compute. apply list_elem_of_In. simpl. tauto.
    + exists "3,0,0". split; [|reflexivity].
      vm_compute. apply list_elem_of_In. simpl. tauto.
    + exists "2,0,1". split; [|reflexivity].
      vm_compute. apply list_elem_of_In. simpl. tauto.
Defined.

(** A complete run in which the quad of a crossing edge is skipped. The
    field is negative at its 50th invocation only, corner 1 of the cell
    (0, 1, 1) of a 3-point lattice: that cell gets a vertex and its edge 0
    crosses, its three backward neighbours are uniform. The extraction runs
    to its end: one vertex, no face, all 64 invocations made. *)
Example missing_neighbour_run :
  let run := Extract.extract (F := float) new_SurfaceNets
               (nth_call_field 49 (-1)%float 1%float)
               (V3 0%float 0%float 0%float, V3 2%float 2%float 2%float) 3 0%nat in
  length (fst (fst run)) = 1%nat /\ snd (fst run) = [] /\ snd run = 64%nat.
Proof. vm_compute. repeat split. Qed.

(** ** Facts about binary64 *)

Section FloatFacts.
Import Float64.
Local Open Scope float_scope.

Lemma Prim2SF_inj (a b : float) : Prim2SF a = Prim2SF b -> a = b.
Proof.
  intros H. rewrite <- (SF2Prim_Prim2SF a), <- (SF2Prim_Prim2SF b), H. reflexivity.
Qed.

Lemma is_nan_spec (a : float) : is_nan a = true <-> Prim2SF a = S754_nan.
Proof.
  unfold is_nan. rewrite FloatAxioms.eqb_spec. unfold SFeqb.
  destruct (Prim2SF a) as [s| s| |s m e]; simpl.
  - split; discriminate.
  - destruct s; split; discriminate.
  - split; reflexivity.
  - rewrite Z.compare_refl, Pos.compare_cont_refl. destruct s; split; discriminate.
Qed.

Lemma is_nan_eq (a : float) : is_nan a = true -> a = nan.
Proof. intros H. apply Prim2SF_inj. apply is_nan_spec in H. rewrite H. reflexivity. Qed.

Lemma SFcompare_antisym (a b : spec_float) :
  SFcompare b a = option_map CompOpp (SFcompare a b).
Proof.
  destruct a as [s1|s1| |s1 m1 e1], b as [s2|s2| |s2 m2 e2];
    try destruct s1; try destruct s2; simpl; try reflexivity;
    rewrite (Z.compare_antisym e1 e2);
    destruct (e1 ?= e2)%Z; simpl; try reflexivity;
    rewrite (Pos.compare_cont_antisym m1 m2 Eq); simpl;
    try rewrite CompOpp_involutive; reflexivity.
Qed.

Lemma SFcompare_refl (a : spec_float) :
  a <> S754_nan -> SFcompare a a = Some Eq.
Proof.
  destruct a as [s|s| |s m e]; intros H; simpl.
  - reflexivity.
  - destruct s; reflexivity.
  - contradiction.
  - rewrite Z.compare_refl, Pos.compare_cont_refl. destruct s; reflexivity.
Qed.

Lemma ltb_irrefl (a : float) : (a <? a) = false.
Proof.
  rewrite ltb_spec. unfold SFltb.
  destruct (Prim2SF a) as [s|s| |s m e] eqn:Ha; try (rewrite SFcompare_refl; congruence).
  reflexivity.
Qed.

Lemma ltb_asym (a b : float) : (b <? a) = true -> (a <? b) = false.
Proof.
  rewrite !ltb_spec. unfold SFltb. rewrite (SFcompare_antisym (Prim2SF b) (Prim2SF a)).
  destruct (SFcompare (Prim2SF b) (Prim2SF a)) as [[]|]; simpl; congruence.
Qed.

Lemma ltb_leb (a b : float) : (b <? a) = true -> (b <=? a) = true.
Proof.
  rewrite ltb_spec, leb_spec. unfold SFltb, SFleb.
  destruct (SFcompare (Prim2SF b) (Prim2SF a)) as [[]|]; congruence.
Qed.

Lemma leb_refl (a : float) : is_nan a = false -> (a <=? a) = true.
Proof.
  intros Ha. rewrite leb_spec. unfold SFleb. rewrite SFcompare_refl; [reflexivity|].
  intros H. apply is_nan_spec in H. congruence.
Qed.

Lemma ltb_nan_r (a : float) : (a <? nan) = false.
Proof.
  rewrite ltb_spec. unfold SFltb. change (Prim2SF nan) with S754_nan.
  destruct (Prim2SF a); reflexivity.
Qed.

Lemma ltb_nan_l (a : float) : (nan <? a) = false.
Proof. rewrite ltb_spec. reflexivity. Qed.

(** The minimum is never above its first argument, the maximum never
    below; as comparisons with NaN are all false, this is said twice. *)
Lemma Math_min_not_above (a b : float) : (a <? Math_min a b) = false.
Proof.
  unfold Math_min. destruct (is_nan a || is_nan b); [apply ltb_nan_r|].
  destruct (Prim2SF a) as [[]|s| |s m e] eqn:Ha;
    destruct (Prim2SF b) as [[]|s'| |s' m' e'] eqn:Hb;
    try (destruct (b <? a) eqn:Hlt; [apply ltb_asym, Hlt|apply ltb_irrefl]).
  rewrite ltb_spec, Ha, Hb. reflexivity.
Qed.

Lemma Math_min_le (a b : float) :
  is_nan (Math_min a b) = false -> (Math_min a b <=? a) = true.
Proof.
  unfold Math_min. destruct (is_nan a || is_nan b) eqn:Hn; [discriminate|].
  apply orb_false_iff in Hn as [Hna Hnb]. intros _.
  destruct (Prim2SF a) as [[]|s| |s m e] eqn:Ha;
    destruct (Prim2SF b) as [[]|s'| |s' m' e'] eqn:Hb;
    try (destruct (b <? a) eqn:Hlt; [apply ltb_leb, Hlt|apply leb_refl, Hna]).
  rewrite leb_spec, Ha, Hb. reflexivity.
Qed.

Lemma Math_max_not_below (a b : float) : (Math_max a b <? a) = false.
Proof.
  unfold Math_max. destruct (is_nan a || is_nan b); [apply ltb_nan_l|].
  destruct (Prim2SF a) as [[]|s| |s m e] eqn:Ha;
    destruct (Prim2SF b) as [[]|s'| |s' m' e'] eqn:Hb;
    try (destruct (a <? b) eqn:Hlt; [apply ltb_asym, Hlt|apply ltb_irrefl]).
  rewrite ltb_spec, Ha, Hb. reflexivity.
Qed.

Lemma Math_max_ge (a b : float) :
  is_nan (Math_max a b) = false -> (a <=? Math_max a b) = true.
Proof.
  unfold Math_max. destruct (is_nan a || is_nan b) eqn:Hn; [discriminate|].
  apply orb_false_iff in Hn as [Hna Hnb]. intros _.
  destruct (Prim2SF a) as [[]|s| |s m e] eqn:Ha;
    destruct (Prim2SF b) as [[]|s'| |s' m' e'] eqn:Hb;
    try (destruct (a <? b) eqn:Hlt; [apply ltb_leb, Hlt|apply leb_refl, Hna]).
  rewrite leb_spec, Ha, Hb. reflexivity.
Qed.

End FloatFacts.

(** ** NaN through the arithmetic *)

Section NanFacts.
Local Open Scope float_scope.

Lemma is_nan_of_SF (a : float) : Prim2SF a = S754_nan -> a = nan.
Proof. intros H. apply Prim2SF_inj. rewrite H. reflexivity. Qed.

Lemma add_nan_l (a : float) : nan + a = nan.
Proof. apply is_nan_of_SF. rewrite add_spec. reflexivity. Qed.

Lemma add_nan_r (a : float) : a + nan = nan.
Proof.
  apply is_nan_of_SF. rewrite add_spec. change (Prim2SF nan) with S754_nan.
  destruct (Prim2SF a); reflexivity.
Qed.

Lemma sub_nan_l (a : float) : nan - a = nan.
Proof. apply is_nan_of_SF. rewrite sub_spec. reflexivity. Qed.

Lemma sub_nan_r (a : float) : a - nan = nan.
Proof.
  apply is_nan_of_SF. rewrite sub_spec. change (Prim2SF nan) with S754_nan.
  destruct (Prim2SF a); reflexivity.
Qed.

Lemma mul_nan_l (a : float) : nan * a = nan.
Proof. apply is_nan_of_SF. rewrite mul_spec. reflexivity. Qed.

Lemma mul_nan_r (a : float) : a * nan = nan.
Proof.
  apply is_nan_of_SF. rewrite mul_spec. change (Prim2SF nan) with S754_nan.
  destruct (Prim2SF a); reflexivity.
Qed.

Lemma div_nan_r (a : float) : a / nan = nan.
Proof.
  apply is_nan_of_SF. rewrite div_spec. change (Prim2SF nan) with S754_nan.
  destruct (Prim2SF a); reflexivity.
Qed.

(** [a - a] is [+0] for a finite [a] and NaN otherwise. *)
Lemma sub_diag (a : float) : a - a = 0 \/ a - a = nan.
Proof.
  destruct (Prim2SF a) as [s|s| |s m e] eqn:Ha.
  - left. apply Prim2SF_inj. rewrite sub_spec, Ha. destruct s; reflexivity.
  - right. apply is_nan_of_SF. rewrite sub_spec, Ha. destruct s; reflexivity.
  - right. apply is_nan_of_SF. rewrite sub_spec, Ha. reflexivity.
  - left. apply Prim2SF_inj. rewrite sub_spec, Ha.
    unfold SF64sub, SFsub. rewrite Z.sub_diag. reflexivity.
Qed.

End NanFacts.

(** ** The signed distance function *)

Section SdfFacts.
Import Float64 Planet.
Local Open Scope float_scope.

Lemma lerp_nan_t (a b : float) : lerp a b nan = nan.
Proof. unfold lerp. rewrite mul_nan_l. apply add_nan_r. Qed.

Lemma lerp_nan_a (b t : float) : lerp nan b t = nan.
Proof. unfold lerp. apply add_nan_l. Qed.

(** The noise of an undefined direction is undefined, whatever the
    permutation table holds. *)
Lemma noise3D_nan (perm : list Z) (y z : float) : noise3D perm nan y z = nan.
Proof.
  unfold noise3D.
  change (nan - Math_floor nan) with nan. change (fade nan) with nan.
  rewrite !lerp_nan_t. rewrite !lerp_nan_a. reflexivity.
Qed.

(** At the centre of the planet the three components of the direction
    are NaN: [0 / 0] when the centre is finite. *)
Lemma direction_at_center (cx cy cz : float) :
  let dx := cx - cx in
  let dy := cy - cy in
  let dz := cz - cz in
  let distFromCenter := sqrt (dx * dx + dy * dy + dz * dz) in
  dx / distFromCenter = nan /\ distFromCenter - distFromCenter = nan
  \/ dx / distFromCenter = nan /\ dx = 0 /\ dy = 0 /\ dz = 0.
Proof.
  cbv zeta.
  destruct (sub_diag cx) as [-> | ->], (sub_diag cy) as [-> | ->],
    (sub_diag cz) as [-> | ->];
    first [right; repeat split; reflexivity | left; split; reflexivity].
Qed.

Lemma terrain_at_center (this : TinyPlanet) :
  terrain this (vx (center this)) (vy (center this)) (vz (center this)) = nan.
Proof.
  unfold terrain.
  set (cx := vx (center this)). set (cy := vy (center this)).
  set (cz := vz (center this)).
  assert (Hn : (cx - cx) / sqrt ((cx - cx) * (cx - cx) + (cy - cy) * (cy - cy)
                                 + (cz - cz) * (cz - cz)) = nan).
  { destruct (direction_at_center cx cy cz) as [[H _]|[H _]]; exact H. }
  rewrite Hn. change (nan * 2) with nan.
  rewrite noise3D_nan. rewrite !mul_nan_l.
  rewrite (sub_nan_r (sqrt _ - radius this)).
  rewrite !sub_nan_l. reflexivity.
Qed.

Lemma apply_modification_nan (x y z : float) (m : Modification) :
  apply_modification x y z nan m = nan.
Proof. unfold apply_modification. destruct (add m); reflexivity. Qed.

Lemma fold_nan (x y z : float) (mods : list Modification) :
  foldl (apply_modification x y z) nan mods = nan.
Proof.
  induction mods as [|m mods IH]; simpl; [reflexivity|].
  rewrite apply_modification_nan. exact IH.
Qed.

(** C9, as the code has it. The normalisation of the centre-to-point
    vector is not guarded: at the exact centre of any planet the
    direction is NaN and [sdf] returns NaN, whatever the radius and the
    modifications are (no fault is raised, and no fallback direction is
    used). *)
Theorem C9_sdf_at_center_is_nan (this : TinyPlanet) :
  sdf this (vx (center this)) (vy (center this)) (vz (center this)) = nan.
Proof. unfold sdf. rewrite terrain_at_center. apply fold_nan. Qed.

Lemma sdf_push (this : TinyPlanet) (m : Modification) (x y z : float) :
  sdf (generateMesh (push_modification this m)) x y z =
  apply_modification x y z (sdf this x y z) m.
Proof.
  unfold sdf.
  change (modifications (generateMesh (push_modification this m)))
    with (modifications this ++ [m]).
  change (terrain (generateMesh (push_modification this m)) x y z)
    with (terrain this x y z).
  rewrite foldl_app. reflexivity.
Qed.

(** C2. [sdf] folds the modification list over the terrain distance in
    insertion order, by a minimum for an Add and a maximum with the
    negated distance for a Subtract, and returns the final value; a
    modification pushed by [mine] or [place] is folded last. *)
Theorem C2_sdf_folds_modifications (this : TinyPlanet) (x y z : float) :
  sdf this x y z =
    fold_modifications x y z (terrain this x y z) (modifications this) /\
  (forall pos r,
     sdf (place this pos r) x y z =
       Math_min (sdf this x y z)
         (distanceToModSphere x y z (mkModification pos (default 2 r) true)) /\
     sdf (mine this pos r) x y z =
       Math_max (sdf this x y z)
         (- distanceToModSphere x y z (mkModification pos (default 2 r) false))).
Proof.
  split.
  - unfold sdf. generalize (terrain this x y z).
    induction (modifications this) as [|m mods IH]; intros dist; simpl.
    + reflexivity.
    + rewrite IH. reflexivity.
  - intros pos r. unfold place, mine. rewrite !sdf_push. split; reflexivity.
Qed.

(** C3. Appending a [place] modification never makes the signed distance
    more positive, at any point: the distance before is not below the
    distance after, and the distance after is at most the distance before
    whenever it is a number. Appending a [mine] modification never
    decreases the signed distance, at any point (in particular outside
    the removal sphere). *)
Theorem C3_place_lowers_mine_raises (this : TinyPlanet) (pos : Vector3)
    (r : option float) (x y z : float) :
  ((sdf this x y z <? sdf (place this pos r) x y z) = false /\
   (is_nan (sdf (place this pos r) x y z) = false ->
    (sdf (place this pos r) x y z <=? sdf this x y z) = true)) /\
  ((sdf (mine this pos r) x y z <? sdf this x y z) = false /\
   (is_nan (sdf (mine this pos r) x y z) = false ->
    (sdf this x y z <=? sdf (mine this pos r) x y z) = true)).
Proof.
  unfold place, mine. rewrite !sdf_push. unfold apply_modification. cbn [add].
  repeat split.
  - apply Math_min_not_above.
  - apply Math_min_le.
  - apply Math_max_not_below.
  - apply Math_max_ge.
Qed.

End SdfFacts.

(** C9, as the design document has it, fails: the value of [sdf] at the
    centre of the application's planet is not finite. *)
Lemma C9_center_not_finite :
  Float64.isFinite (Planet.sdf mote_planet 0 0 0) = false.
Proof. lazy. reflexivity. Qed.

(** ** The vertex of a crossing cell *)

Section CrossingVertex.
Import JS Extract.
Context {F : Type} {num : Num F} {W : Type}.
Local Open Scope num_scope.










End CrossingVertex.



Lemma C3_place_lowers_mine_raises_witness :
  (PrimFloat.leb
     (Planet.sdf (Planet.place mote_planet (Planet.mkVector3 26 0 0) (Some 3%float)) 26 0 0)
     (Planet.sdf mote_planet 26 0 0) = true) /\
  (PrimFloat.leb
     (Planet.sdf mote_planet 24 0 0)
     (Planet.sdf (Planet.mine mote_planet (Planet.mkVector3 26 0 0) (Some 3%float)) 24 0 0)
   = true).
Proof.
  destruct (C3_place_lowers_mine_raises mote_planet (Planet.mkVector3 26 0 0)
              (Some 3%float) 26 0 0) as [[_ Hplace] _].
  destruct (C3_place_lowers_mine_raises mote_planet (Planet.mkVector3 26 0 0)
              (Some 3%float) 24 0 0) as [_ [_ Hmine]].
  split.
  - apply Hplace. lazy. reflexivity.
  - apply Hmine. lazy. reflexivity.
Defined.

(** ** The scenario of the design document, in binary64 *)

(** At resolution 8 the sphere gives a closed mesh of 98 vertices and 192
    triangles, every vertex at a distance between 9 and 11 from the centre. *)
Example sphere_scenario :
  let result := fst (Extract.extract new_SurfaceNets sphere_field sphere_bounds 8 tt) in
  length (fst result) = 98%nat /\ length (snd result) = 192%nat /\
  forallb (fun v => let d := sqrt (c0 v * c0 v + c1 v * c1 v + c2 v * c2 v)%float in
                    (9 <=? d)%float && (d <=? 11)%float) (fst result) = true.
Proof. vm_compute. repeat split. Qed.

(** In binary64 the vertex pushed by a cell and the mean of the design
    document agree up to rounding only: at resolution 8 no vertex of the
    sphere differs from its mean, at resolution 5 the second coordinates of
    the cell (1, 1, 0) differ, by less than [2^-49]. *)
Example binary64_rounds_the_mean :
  let sampled := cell_samples sphere_field sphere_bounds 5 1 1 0
                   (Extract.grid (Extract.init_state (F := float))) tt in
  let pushed := Extract.vertices
                  (fst (Extract.cell new_SurfaceNets sphere_field sphere_bounds
                          (Extract.cell_scale sphere_bounds 5) 1 1 0
                          Extract.init_state tt)) in
  let mean := mean_vertex sphere_bounds 5 1 1 0 (fst sampled) (snd sampled) in
  (fun v => (c1 v =? c1 mean)%float) <$> pushed = [false] /\
  (fun v => (abs (c1 v - c1 mean) <? 0x1p-49)%float) <$> pushed = [true].
Proof. vm_compute. split; reflexivity. Qed.

(** * Further properties of the code *)

(** ** The keys of the vertex buffer *)

Section KeyFacts.
Import Extract.

Lemma has_comma_app (s t : string) :
  has_comma (s +:+ t) = has_comma s || has_comma t.
Proof.
  induction s as [|c s IH]; simpl; [reflexivity|].
  rewrite IH. apply orb_assoc.
Qed.

Lemma pretty_N_go_no_comma (x : N) (s : string) :
  has_comma (pretty_N_go x s) = has_comma s.
Proof.
  revert s. induction (N.lt_wf_0 x) as [x _ IH]; intros s.
  assert (x = 0 \/ 0 < x)%N as [->|Hx] by lia.
  - rewrite pretty_N_go_0. reflexivity.
  - rewrite pretty_N_go_step by exact Hx.
    rewrite IH by (apply N.div_lt; [exact Hx|reflexivity]).
    simpl. unfold pretty_N_char.
    repeat case_match; reflexivity.
Qed.

Lemma pretty_N_no_comma (x : N) : has_comma (pretty x) = false.
Proof.
  unfold pretty, pretty_N. case_decide; [reflexivity|].
  apply pretty_N_go_no_comma.
Qed.

Lemma pretty_Z_no_comma (x : Z) : has_comma (pretty x) = false.
Proof.
  destruct x as [|p|p]; unfold pretty, pretty_Z; [reflexivity|..].
  - apply pretty_N_no_comma.
  - rewrite has_comma_app. simpl. apply pretty_N_no_comma.
Qed.

Lemma append_nil_l (s : string) : "" +:+ s = s.
Proof. reflexivity. Qed.

Lemma append_cons (c : ascii) (s t : string) :
  String c s +:+ t = String c (s +:+ t).
Proof. reflexivity. Qed.

(** Two strings cut at their first comma are cut alike. *)
Lemma comma_split (a a' b b' : string) :
  has_comma a = false -> has_comma a' = false ->
  a +:+ "," +:+ b = a' +:+ "," +:+ b' -> a = a' /\ b = b'.
Proof.
  revert a'. induction a as [|c a IH]; intros [|c' a'] Ha Ha' Heq;
    rewrite ?append_nil_l, ?append_cons in Heq; cbn [has_comma] in Ha, Ha'.
  - injection Heq as Hb. split; [reflexivity|exact Hb].
  - injection Heq as Hc _. subst c'. discriminate.
  - injection Heq as Hc _. subst c. discriminate.
  - apply orb_false_iff in Ha as [_ Ha]. apply orb_false_iff in Ha' as [_ Ha'].
    injection Heq as Hc Heq. subst c'. destruct (IH a' Ha Ha' Heq) as [-> ->].
    split; reflexivity.
Qed.

Lemma getKey_inj (x y z x' y' z' : Z) :
  getKey x y z = getKey x' y' z' -> x = x' /\ y = y' /\ z = z'.
Proof.
  unfold getKey. intros Heq.
  apply comma_split in Heq as [Hx Heq]; try apply pretty_Z_no_comma.
  apply comma_split in Heq as [Hy Hz]; try apply pretty_Z_no_comma.
  repeat split; eapply (inj pretty); eassumption.
Qed.

Lemma getKey_ne (x y z x' y' z' : Z) :
  (x, y, z) <> (x', y', z') -> getKey x y z <> getKey x' y' z'.
Proof.
  intros Hne Heq. apply getKey_inj in Heq as (-> & -> & ->).
  contradiction.
Qed.

(** X1. [getKey] is injective: two cells have the same key only if they
    are the same cell, so no two cells share an entry of the vertex buffer. *)
Theorem X1_getKey_injective (x y z x' y' z' : Z) :
  getKey x y z = getKey x' y' z' -> x = x' /\ y = y' /\ z = z'.
Proof. apply getKey_inj. Qed.

Lemma X1_getKey_injective_witness : (-1) = (-1) /\ 12 = 12 /\ 0 = 0.
Proof. apply (X1_getKey_injective (-1) 12 0 (-1) 12 0). reflexivity. Defined.

End KeyFacts.

(** ** Sampling the corners of a cell *)

Section SamplingFacts.
Import JS Extract.
Context {F : Type} {num : Num F} {W : Type}.

Lemma forM_pure {A S : Type} (body : S -> A -> M W S) (g : S -> A -> S)
    (l : list A) :
  (forall s a w, body s a w = (g s a, w)) ->
  forall s w, forM l body s w = (foldl g s l, w).
Proof.
  intros Hbody. induction l as [|a l IH]; intros s w; cbn [forM foldl].
  - reflexivity.
  - unfold bind. rewrite Hbody. apply IH.
Qed.

(** The mask accumulated bit by bit is the mask of the 8 signs. *)
Lemma mask_bits (b0 b1 b2 b3 b4 b5 b6 b7 : bool) :
  bor (bor (bor (bor (bor (bor (bor (bor 0
    (if b0 then shl 1 0 else 0))
    (if b1 then shl 1 (0 + 1) else 0))
    (if b2 then shl 1 (0 + 1 + 1) else 0))
    (if b3 then shl 1 (0 + 1 + 1 + 1) else 0))
    (if b4 then shl 1 (0 + 1 + 1 + 1 + 1) else 0))
    (if b5 then shl 1 (0 + 1 + 1 + 1 + 1 + 1) else 0))
    (if b6 then shl 1 (0 + 1 + 1 + 1 + 1 + 1 + 1) else 0))
    (if b7 then shl 1 (0 + 1 + 1 + 1 + 1 + 1 + 1 + 1) else 0) =
  (if b0 then 1 else 0) + 2 * ((if b1 then 1 else 0) + 2 * ((if b2 then 1 else 0)
  + 2 * ((if b3 then 1 else 0) + 2 * ((if b4 then 1 else 0)
  + 2 * ((if b5 then 1 else 0) + 2 * ((if b6 then 1 else 0)
  + 2 * ((if b7 then 1 else 0) + 2 * 0))))))).
Proof.
  destruct b0, b1, b2, b3, b4, b5, b6, b7; vm_compute; reflexivity.
Qed.

Ltac eval_corner_coords :=
  repeat match goal with
         | |- context [corner_coord ?g ?j] =>
             let v := eval vm_compute in (corner_coord g j) in
             change (corner_coord g j) with v
         end.

Lemma sample_corners_pure (f : F -> F -> F -> F) xPos yPos zPos scale
    (gr0 : list F) (w : W) :
  snd (fst (sample_corners (pure_field f) xPos yPos zPos scale gr0 w)) =
    mask_of (corner_values f xPos yPos zPos scale) /\
  snd (sample_corners (pure_field f) xPos yPos zPos scale gr0 w) = w /\
  (length gr0 = 8%nat ->
   fst (fst (sample_corners (pure_field f) xPos yPos zPos scale gr0 w)) =
     nfround <$> corner_values f xPos yPos zPos scale).
Proof.
  pose (step := fun (dz dy : Z) (acc : list F * Z * Z) (dx : Z) =>
          let '(gr, mask, g) := acc in
          let val := f (nadd xPos (nmul (of_int dx) (c0 scale)))
                       (nadd yPos (nmul (of_int dy) (c1 scale)))
                       (nadd zPos (nmul (of_int dz) (c2 scale))) in
          (<[Z.to_nat g := nfround val]> gr,
           bor mask (if nlt val (of_int 0) then shl 1 g else 0), g + 1)).
  assert (Hstep : forall dz dy acc dx (w1 : W),
            corner_step (pure_field f) xPos yPos zPos scale dz dy acc dx w1 =
            (step dz dy acc dx, w1)).
  { intros dz dy [[gr mask] g] dx w1. reflexivity. }
  unfold sample_corners, bind.
  rewrite (forM_pure _ (fun acc dz => foldl (fun acc dy =>
             foldl (step dz dy) acc [0; 1]) acc [0; 1])).
  2:{ intros acc dz w1.
      apply (forM_pure _ (fun acc dy => foldl (step dz dy) acc [0; 1])).
      intros acc1 dy w2. apply (forM_pure _ (step dz dy)). apply Hstep. }
  cbv beta iota zeta delta [foldl step fst snd ret].
  unfold corner_values, corner_position.
  change (seqZ 0 8) with [0; 1; 2; 3; 4; 5; 6; 7].
  cbn [fmap list_fmap c0 c1 c2]. eval_corner_coords.
  split; [|split].
  - cbn [mask_of]. apply mask_bits.
  - reflexivity.
  - intros Hlen.
    do 9 (destruct gr0 as [|? gr0]; try discriminate Hlen).
    reflexivity.
Qed.

End SamplingFacts.

Section MaskFacts.
Import JS Extract.
Context {F : Type} {num : Num F}.

Lemma mask_of_range (l : list F) : 0 <= mask_of l < 2 ^ Z.of_nat (length l).
Proof.
  induction l as [|v l IH]; cbn [mask_of length].
  - simpl. lia.
  - rewrite Nat2Z.inj_succ, Z.pow_succ_r by lia.
    revert IH. generalize (2 ^ Z.of_nat (length l)), (mask_of l).
    intros p m IH. destruct (nlt v (of_int 0)); lia.
Qed.

Lemma mask_of_testbit (l : list F) (g : nat) (v : F) :
  l !! g = Some v -> Z.testbit (mask_of l) (Z.of_nat g) = nlt v (of_int 0).
Proof.
  revert g. induction l as [|u l IH]; intros [|g] Hg; try discriminate Hg;
    cbn [mask_of].
  - injection Hg as ->.
    replace (if nlt v (of_int 0) then 1 else 0) with (Z.b2z (nlt v (of_int 0)))
      by (destruct (nlt v (of_int 0)); reflexivity).
    apply Z.add_b2z_double_bit0.
  - rewrite Nat2Z.inj_succ.
    replace (if nlt u (of_int 0) then 1 else 0) with (Z.b2z (nlt u (of_int 0)))
      by (destruct (nlt u (of_int 0)); reflexivity).
    rewrite Z.add_comm, Z.testbit_succ_r by lia. apply IH, Hg.
Qed.

Lemma mask_of_none (l : list F) :
  Forall (fun v => nlt v (of_int 0) = false) l -> mask_of l = 0.
Proof.
  induction 1 as [|v l Hv _ IH]; cbn [mask_of]; [reflexivity|].
  rewrite Hv, IH. reflexivity.
Qed.

Lemma mask_of_all (l : list F) :
  Forall (fun v => nlt v (of_int 0) = true) l ->
  mask_of l = 2 ^ Z.of_nat (length l) - 1.
Proof.
  induction 1 as [|v l Hv _ IH]; cbn [mask_of length]; [reflexivity|].
  rewrite Hv, IH, Nat2Z.inj_succ, Z.pow_succ_r by lia.
  generalize (2 ^ Z.of_nat (length l)). intros p. lia.
Qed.

Lemma corner_values_length (f : F -> F -> F -> F) xPos yPos zPos scale :
  length (corner_values f xPos yPos zPos scale) = 8%nat.
Proof. unfold corner_values. rewrite length_fmap, length_seqZ. reflexivity. Qed.

Lemma corner_values_lookup (f : F -> F -> F -> F) xPos yPos zPos scale (g : Z) :
  0 <= g < 8 ->
  corner_values f xPos yPos zPos scale !! Z.to_nat g =
  Some (let p := corner_position xPos yPos zPos scale g in f (c0 p) (c1 p) (c2 p)).
Proof.
  intros Hg. unfold corner_values. rewrite list_lookup_fmap.
  rewrite lookup_seqZ_lt by lia. rewrite Z2Nat.id, Z.add_0_l by lia.
  reflexivity.
Qed.

End MaskFacts.

Section PureFieldFacts.
Import JS Extract.
Context {F : Type} {num : Num F} {W : Type}.

(** X2. For a field without effects, sampling a cell leaves the world as
    it was, stores in [grid] the rounded value of the field at each of the 8
    corners, corner [g] lying at the offsets given by the bits of [g] (bit 0
    on x, bit 1 on y, bit 2 on z), and returns a mask between 0 and 255 whose
    bit [g] is set exactly when the value at corner [g], before rounding, is
    negative. *)
Theorem X2_sampled_corners (f : F -> F -> F -> F) (xPos yPos zPos : F)
    (scale : vec3 F) (gr0 : list F) (w : W) (g : Z) :
  length gr0 = 8%nat -> 0 <= g < 8 ->
  let run := sample_corners (pure_field f) xPos yPos zPos scale gr0 w in
  let p := corner_position xPos yPos zPos scale g in
  snd run = w /\
  0 <= snd (fst run) < 256 /\
  Z.testbit (snd (fst run)) g = nlt (f (c0 p) (c1 p) (c2 p)) (of_int 0) /\
  length (fst (fst run)) = 8%nat /\
  grid_get (fst (fst run)) g = nfround (f (c0 p) (c1 p) (c2 p)).
Proof.
  intros Hlen Hg run p. subst run.
  destruct (sample_corners_pure f xPos yPos zPos scale gr0 w) as (Hm & Hw & Hgr).
  rewrite Hm, Hw, (Hgr Hlen).
  pose proof (corner_values_lookup f xPos yPos zPos scale g Hg) as Hlook.
  split; [reflexivity|]. split; [|split; [|split]].
  - pose proof (mask_of_range (corner_values f xPos yPos zPos scale)) as Hr.
    rewrite corner_values_length in Hr. exact Hr.
  - rewrite <- (Z2Nat.id g) at 1 by lia. apply mask_of_testbit, Hlook.
  - rewrite length_fmap. apply corner_values_length.
  - unfold grid_get. rewrite list_lookup_fmap, Hlook. reflexivity.
Qed.

Lemma cell_pure_uniform (sn : SurfaceNets) (f : F -> F -> F -> F)
    bounds scale x y z (st : state F) (w : W) :
  let xPos := nadd (c0 (fst bounds)) (nmul (of_int x) (c0 scale)) in
  let yPos := nadd (c1 (fst bounds)) (nmul (of_int y) (c1 scale)) in
  let zPos := nadd (c2 (fst bounds)) (nmul (of_int z) (c2 scale)) in
  let m := mask_of (corner_values f xPos yPos zPos scale) in
  m = 0 \/ m = 255 ->
  let st' := fst (cell sn (pure_field f) bounds scale x y z st w) in
  vertices st' = vertices st /\ faces st' = faces st /\
  vertexBuffer st' = vertexBuffer st.
Proof.
  cbv zeta. intros Hm. unfold cell, bind.
  destruct (sample_corners_pure f
              (nadd (c0 (fst bounds)) (nmul (of_int x) (c0 scale)))
              (nadd (c1 (fst bounds)) (nmul (of_int y) (c1 scale)))
              (nadd (c2 (fst bounds)) (nmul (of_int z) (c2 scale)))
              scale (grid st) w) as (Hmask & _ & _).
  destruct (sample_corners (pure_field f) _ _ _ scale (grid st) w)
    as [[gr mask] w1].
  cbn [fst snd] in Hmask. subst mask.
  replace ((_ =? 0) || (_ =? 255)) with true
    by (symmetry; apply orb_true_iff; destruct Hm as [-> | ->]; [left|right]; reflexivity).
  repeat split.
Qed.

Lemma constant_sign_mask (f : F -> F -> F -> F) xPos yPos zPos scale :
  (forall a b c, nlt (f a b c) (of_int 0) = false) \/
  (forall a b c, nlt (f a b c) (of_int 0) = true) ->
  mask_of (corner_values f xPos yPos zPos scale) = 0 \/
  mask_of (corner_values f xPos yPos zPos scale) = 255.
Proof.
  intros [Hf | Hf]; [left|right].
  - apply mask_of_none. unfold corner_values. apply Forall_fmap, Forall_forall.
    intros g _. apply Hf.
  - rewrite mask_of_all.
    + rewrite corner_values_length. reflexivity.
    + unfold corner_values. apply Forall_fmap, Forall_forall.
      intros g _. apply Hf.
Qed.

Lemma constant_sign_empty (sn : SurfaceNets) (f : F -> F -> F -> F)
    (bounds : vec3 F * vec3 F) (resolution : Z) (w : W) :
  (forall a b c, nlt (f a b c) (of_int 0) = false) \/
  (forall a b c, nlt (f a b c) (of_int 0) = true) ->
  fst (extract sn (pure_field f) bounds resolution w) = ([], []).
Proof.
  intros Hf. unfold extract, bind.
  assert (Hinv : (fun st => vertices st = [] /\ faces st = [])
                   (fst (march sn (pure_field f) bounds resolution w))).
  { unfold march.
    apply (forM_invariant (fun st : state F => vertices st = [] /\ faces st = [])).
    - intros st z w1 Hst. apply (forM_invariant
        (fun st : state F => vertices st = [] /\ faces st = [])); [|exact Hst].
      intros st1 y w2 Hst1. apply (forM_invariant
        (fun st : state F => vertices st = [] /\ faces st = [])); [|exact Hst1].
      intros st2 x w3 [Hv Hfs].
      destruct (cell_pure_uniform sn f bounds (cell_scale bounds resolution)
                  x y z st2 w3 (constant_sign_mask f _ _ _ _ Hf)) as (-> & -> & _).
      split; assumption.
    - split; reflexivity. }
  destruct (march sn (pure_field f) bounds resolution w) as [st w1].
  cbn [fst ret] in *. destruct Hinv as [-> ->]. reflexivity.
Qed.

(** X3. A field without effects that is negative nowhere (for one, a
    field that returns NaN), or negative everywhere, gives the empty mesh:
    every cell is uniform and pushes nothing. *)
Theorem X3_constant_sign_gives_empty_mesh (sn : SurfaceNets)
    (f : F -> F -> F -> F) (bounds : vec3 F * vec3 F) (resolution : Z) (w : W) :
  (forall a b c, nlt (f a b c) (of_int 0) = false) \/
  (forall a b c, nlt (f a b c) (of_int 0) = true) ->
  fst (extract sn (pure_field f) bounds resolution w) = ([], []).
Proof. apply constant_sign_empty. Qed.

End PureFieldFacts.

Lemma X2_sampled_corners_witness :
  let run := Extract.sample_corners (pure_field (W := unit)
               (fun x y z => (x + y + z - 0.5)%float))
               0%float 0%float 0%float
               (V3 1%float 1%float 1%float) (replicate 8 0%float) tt in
  snd (fst run) = 1 /\ Z.testbit (snd (fst run)) 5 = false.
Proof.
  destruct (X2_sampled_corners (F := float) (W := unit)
              (fun x y z => (x + y + z - 0.5)%float)
              0%float 0%float 0%float (V3 1%float 1%float 1%float)
              (replicate 8 0%float) tt 5 eq_refl) as (_ & _ & Hbit & _);
    [lia|].
  split; [vm_compute; reflexivity|].
  rewrite Hbit. vm_compute. reflexivity.
Defined.

Lemma X3_constant_sign_gives_empty_mesh_witness :
  fst (Extract.extract new_SurfaceNets
         (pure_field (W := unit) (fun _ _ _ : float => nan))
         sphere_bounds 8 tt) = ([], []).
Proof.
  apply (X3_constant_sign_gives_empty_mesh (F := float) (W := unit)).
  left. intros a b c. reflexivity.
Defined.

(** ** The size and the shape of the mesh *)

Section LoopCount.
Context {W A St : Type}.

(** A body that moves a counted invariant on by [k] moves the loop on by
    [k] for each element. *)
Lemma forM_counted (I : St -> nat -> Prop) (body : St -> A -> M W St)
    (l : list A) (k : nat) :
  (forall s a w n, I s n -> I (fst (body s a w)) (n + k)%nat) ->
  forall s w n, I s n -> I (fst (forM l body s w)) (n + length l * k)%nat.
Proof.
  intros Hbody. induction l as [|a l IH]; intros s w n Hs; cbn [forM length].
  - replace (n + 0 * k)%nat with n by lia. exact Hs.
  - unfold bind. pose proof (Hbody s a w n Hs) as H1.
    destruct (body s a w) as [s1 w1]. cbn [fst] in H1.
    replace (n + S (length l) * k)%nat with ((n + k) + length l * k)%nat by lia.
    apply IH, H1.
Qed.

End LoopCount.

Section MeshShape.
Import JS Extract.
Context {F : Type} {num : Num F} {W : Type}.

(** X4. With [resolution] below 2 the loop nest has no cell: the mesh is
    empty, the field is never invoked and its world is returned as it was
    (the cell size, a division by [resolution - 1], is computed and not
    used). *)
Theorem X4_resolution_below_two (sn : SurfaceNets) (f : field F W)
    (bounds : vec3 F * vec3 F) (resolution : Z) (w : W) :
  resolution < 2 ->
  extract sn f bounds resolution w = (([], []), w).
Proof.
  intros Hres. unfold extract, march, bind.
  rewrite seqZ_nil by lia. reflexivity.
Qed.

Lemma push_quad_length (fs : list face) (mask : Z) (v0 v1 v2 v3 : option nat) :
  length (push_quad fs mask v0 v1 v2 v3) = length fs \/
  length (push_quad fs mask v0 v1 v2 v3) = (length fs + 2)%nat.
Proof.
  unfold push_quad.
  destruct v0, v1, v2, v3; try (left; reflexivity).
  right. destruct (truthy (band mask 1)); rewrite length_app; reflexivity.
Qed.

Lemma stitch_length (vb : gmap string nat) (mask edgeMask x y z : Z)
    (fs : list face) :
  (length (stitch_x vb mask edgeMask x y z fs) = length fs \/
   length (stitch_x vb mask edgeMask x y z fs) = (length fs + 2)%nat) /\
  (length (stitch_y vb mask edgeMask x y z fs) = length fs \/
   length (stitch_y vb mask edgeMask x y z fs) = (length fs + 2)%nat) /\
  (length (stitch_z vb mask edgeMask x y z fs) = length fs \/
   length (stitch_z vb mask edgeMask x y z fs) = (length fs + 2)%nat).
Proof.
  unfold stitch_x, stitch_y, stitch_z.
  repeat split;
    repeat match goal with
           | |- context [if ?c then _ else _] => destruct c
           end; try (left; reflexivity); apply push_quad_length.
Qed.

(** The counted invariant: at most [n] vertices, at most three quads for
    each, and the triangles in pairs. *)
Lemma cell_sizes (sn : SurfaceNets) (f : field F W) bounds scale x y z st w n :
  (length (vertices st) <= n)%nat /\
  (length (faces st) <= 6 * length (vertices st))%nat /\
  Nat.Even (length (faces st)) ->
  let st' := fst (cell sn f bounds scale x y z st w) in
  (length (vertices st') <= n + 1)%nat /\
  (length (faces st') <= 6 * length (vertices st'))%nat /\
  Nat.Even (length (faces st')).
Proof.
  cbv zeta. intros (Hv & Hf & He). unfold cell, bind.
  destruct (sample_corners f _ _ _ scale (grid st) w) as [[gr mask] w1].
  destruct ((mask =? 0) || (mask =? 255)).
  - cbn [fst ret vertices faces]. repeat split; [lia|exact Hf|exact He].
  - destruct (accumulate_edges sn (get (edgeTable sn) mask) gr) as [v vertCount].
    cbn [fst ret vertices faces]. rewrite length_app. cbn [length].
    set (vb := <[getKey x y z := length (vertices st)]> (vertexBuffer st)).
    set (em := get (edgeTable sn) mask).
    set (f1 := stitch_x vb mask em x y z (faces st)).
    set (f2 := stitch_y vb mask em x y z f1).
    destruct (stitch_length vb mask em x y z (faces st)) as (Hx & _ & _).
    destruct (stitch_length vb mask em x y z f1) as (_ & Hy & _).
    destruct (stitch_length vb mask em x y z f2) as (_ & _ & Hz).
    fold f1 in Hx. fold f2 in Hy.
    destruct He as [h He].
    repeat split; [lia|lia|].
    destruct Hx as [Hx|Hx], Hy as [Hy|Hy], Hz as [Hz|Hz];
      rewrite Hz, Hy, Hx, He;
      first [exists h; lia | exists (h + 1)%nat; lia
            | exists (h + 2)%nat; lia | exists (h + 3)%nat; lia].
Qed.

(** X5. The size of the mesh: at most one vertex for each of the
    [(resolution - 1)^3] cells, at most six triangles (three quads) for each
    vertex, and an even number of triangles. *)
Theorem X5_mesh_size (sn : SurfaceNets) (f : field F W)
    (bounds : vec3 F * vec3 F) (resolution : Z) (w : W) :
  let result := fst (extract sn f bounds resolution w) in
  Z.of_nat (length (fst result)) <= Z.max 0 (resolution - 1) ^ 3 /\
  (length (snd result) <= 6 * length (fst result))%nat /\
  Nat.Even (length (snd result)).
Proof.
  intros result. subst result. unfold extract, bind.
  set (I := fun (st : state F) (n : nat) =>
              (length (vertices st) <= n)%nat /\
              (length (faces st) <= 6 * length (vertices st))%nat /\
              Nat.Even (length (faces st))).
  set (r := Z.to_nat (resolution - 1)).
  assert (Hinv : I (fst (march sn f bounds resolution w)) (0 + r * (r * (r * 1)))%nat).
  { unfold march. subst r. rewrite <- (length_seqZ 0 (resolution - 1)).
    apply (forM_counted I).
    - intros st z w1 n Hst. apply (forM_counted I); [|exact Hst].
      intros st1 y w2 n1 Hst1. apply (forM_counted I); [|exact Hst1].
      intros st2 x w3 n2 Hst2. apply cell_sizes, Hst2.
    - repeat split; cbn; [lia|lia|exists 0%nat; reflexivity]. }
  destruct (march sn f bounds resolution w) as [st w1].
  cbn [fst snd ret] in *. destruct Hinv as (Hv & Hf & He).
  split; [|split; assumption].
  subst r. destruct (Z.max_spec 0 (resolution - 1)) as [[Hlt ->]|[Hle ->]].
  - assert (Z.of_nat (Z.to_nat (resolution - 1)) = resolution - 1) by lia. nia.
  - replace (Z.to_nat (resolution - 1)) with 0%nat in Hv by lia. simpl in Hv. lia.
Qed.

End MeshShape.

Lemma X4_resolution_below_two_witness :
  Extract.extract new_SurfaceNets sphere_field sphere_bounds 1 tt = (([], []), tt).
Proof. apply X4_resolution_below_two. lia. Defined.

Section Triangles.
Import JS Extract.
Context {F : Type} {num : Num F} {W : Type}.

(** A quad stitched from the freshly recorded vertex [n] and three other
    cells of a buffer that is in order gives proper triangles. *)
Lemma push_quad_proper (old : gmap string nat) (n : nat) (fs : list face)
    (mask : Z) (k0 k1 k2 k3 : string) :
  map_Forall (fun _ i => (i < n)%nat) old ->
  (forall ka kb i, old !! ka = Some i -> old !! kb = Some i -> ka = kb) ->
  k1 <> k0 -> k2 <> k0 -> k3 <> k0 -> k1 <> k2 -> k2 <> k3 ->
  Forall proper_triangle fs ->
  Forall proper_triangle
    (push_quad fs mask (<[k0 := n]> old !! k0) (<[k0 := n]> old !! k1)
               (<[k0 := n]> old !! k2) (<[k0 := n]> old !! k3)).
Proof.
  intros Hlt Hinj H10 H20 H30 H12 H23 Hfs.
  rewrite lookup_insert_eq, !lookup_insert_ne by congruence.
  unfold push_quad.
  destruct (old !! k1) as [b|] eqn:E1; [|exact Hfs].
  destruct (old !! k2) as [c|] eqn:E2; [|exact Hfs].
  destruct (old !! k3) as [d|] eqn:E3; [|exact Hfs].
  pose proof (Hlt _ _ E1) as Hb. pose proof (Hlt _ _ E2) as Hc.
  pose proof (Hlt _ _ E3) as Hd. cbn beta in Hb, Hc, Hd.
  assert (Hbc : b <> c) by (intros ->; apply H12, (Hinj k1 k2 c E1 E2)).
  assert (Hcd : c <> d) by (intros ->; apply H23, (Hinj k2 k3 d E2 E3)).
  destruct (truthy (band mask 1)); apply Forall_app; (split; [exact Hfs|]);
    repeat constructor; cbn; auto.
Qed.

Lemma stitch_proper (old : gmap string nat) (n : nat) (mask edgeMask x y z : Z)
    (fs : list face) :
  map_Forall (fun _ i => (i < n)%nat) old ->
  (forall ka kb i, old !! ka = Some i -> old !! kb = Some i -> ka = kb) ->
  Forall proper_triangle fs ->
  Forall proper_triangle
    (stitch_x (<[getKey x y z := n]> old) mask edgeMask x y z fs) /\
  Forall proper_triangle
    (stitch_y (<[getKey x y z := n]> old) mask edgeMask x y z fs) /\
  Forall proper_triangle
    (stitch_z (<[getKey x y z := n]> old) mask edgeMask x y z fs).
Proof.
  intros Hlt Hinj Hfs. unfold stitch_x, stitch_y, stitch_z.
  repeat split;
    repeat match goal with
           | |- context [if ?c then _ else _] => destruct c
           end; try exact Hfs;
    apply push_quad_proper; try assumption;
    apply getKey_ne; intros Heq; injection Heq; lia.
Qed.

Lemma cell_buffer_ok (sn : SurfaceNets) (f : field F W) bounds scale x y z st w :
  buffer_ok st -> buffer_ok (fst (cell sn f bounds scale x y z st w)).
Proof.
  intros (Hlt & Hinj & Hfs). unfold cell, bind.
  destruct (sample_corners f _ _ _ scale (grid st) w) as [[gr mask] w1].
  destruct ((mask =? 0) || (mask =? 255)); [repeat split; assumption|].
  destruct (accumulate_edges sn (get (edgeTable sn) mask) gr) as [v vertCount].
  unfold buffer_ok. cbn [fst ret vertices faces vertexBuffer].
  rewrite length_app. cbn [length].
  set (n := length (vertices st)) in *.
  split; [|split].
  - apply map_Forall_insert_2; [lia|].
    intros k i Hk. specialize (Hlt k i Hk). cbn beta in Hlt. lia.
  - intros k1 k2 i H1 H2.
    destruct (decide (k1 = getKey x y z)) as [->|N1],
             (decide (k2 = getKey x y z)) as [->|N2]; [reflexivity|..].
    + rewrite lookup_insert_eq in H1. injection H1 as <-.
      rewrite lookup_insert_ne in H2 by congruence.
      specialize (Hlt k2 n H2). cbn beta in Hlt. lia.
    + rewrite lookup_insert_eq in H2. injection H2 as <-.
      rewrite lookup_insert_ne in H1 by congruence.
      specialize (Hlt k1 n H1). cbn beta in Hlt. lia.
    + rewrite lookup_insert_ne in H1, H2 by congruence.
      apply (Hinj k1 k2 i H1 H2).
  - apply stitch_proper; [exact Hlt|exact Hinj|].
    apply stitch_proper; [exact Hlt|exact Hinj|].
    apply stitch_proper; assumption.
Qed.

(** X6. No triangle of the mesh is degenerate: its three indices differ,
    the first, the vertex of the cell that stitched it, being above the two
    others, vertices of cells visited before. *)
Theorem X6_triangles_are_proper (sn : SurfaceNets) (f : field F W)
    (bounds : vec3 F * vec3 F) (resolution : Z) (w : W) :
  Forall proper_triangle (snd (fst (extract sn f bounds resolution w))).
Proof.
  unfold extract, bind.
  assert (Hinv : buffer_ok (fst (march sn f bounds resolution w))).
  { unfold march. apply (forM_invariant buffer_ok).
    - intros st z w1 Hst. apply (forM_invariant buffer_ok); [|exact Hst].
      intros st1 y w2 Hst1. apply (forM_invariant buffer_ok); [|exact Hst1].
      intros st2 x w3 Hst2. apply cell_buffer_ok, Hst2.
    - split; [apply map_Forall_empty|]. split; [|constructor].
      intros k1 k2 i H1. cbn [init_state vertexBuffer] in H1.
      rewrite lookup_empty in H1. discriminate. }
  destruct (march sn f bounds resolution w) as [st w1].
  cbn [fst snd ret]. apply Hinv.
Qed.

End Triangles.

(** ** The stitched edges *)

Section StitchedEdges.
Import JS Extract.

Lemma stitched_bits (mask : Z) :
  0 <= mask < 256 ->
  truthy (band (get (edgeTable new_SurfaceNets) mask) 1) =
    xorb (Z.testbit mask 0) (Z.testbit mask 1) /\
  truthy (band (get (edgeTable new_SurfaceNets) mask) 2) =
    xorb (Z.testbit mask 0) (Z.testbit mask 2) /\
  truthy (band (get (edgeTable new_SurfaceNets) mask) 4) =
    xorb (Z.testbit mask 0) (Z.testbit mask 4).
Proof.
  intros Hm.
  assert (H : eqb (truthy (band (get (edgeTable new_SurfaceNets) mask) 1))
                  (xorb (Z.testbit mask 0) (Z.testbit mask 1)) &&
              eqb (truthy (band (get (edgeTable new_SurfaceNets) mask) 2))
                  (xorb (Z.testbit mask 0) (Z.testbit mask 2)) &&
              eqb (truthy (band (get (edgeTable new_SurfaceNets) mask) 4))
                  (xorb (Z.testbit mask 0) (Z.testbit mask 4)) = true).
  { apply (forall_range
      (fun m => eqb (truthy (band (get (edgeTable new_SurfaceNets) m) 1))
                    (xorb (Z.testbit m 0) (Z.testbit m 1)) &&
                eqb (truthy (band (get (edgeTable new_SurfaceNets) m) 2))
                    (xorb (Z.testbit m 0) (Z.testbit m 2)) &&
                eqb (truthy (band (get (edgeTable new_SurfaceNets) m) 4))
                    (xorb (Z.testbit m 0) (Z.testbit m 4))) 0 256);
      [vm_compute; reflexivity|lia]. }
  apply andb_true_iff in H as [H H4]. apply andb_true_iff in H as [H1 H2].
  repeat split; apply eqb_prop; assumption.
Qed.

(** X7. The three edge bits that [extract] tests before stitching, [1],
    [2] and [4], are the edges that leave corner 0 along x, y and z in the
    table built by [init]: for every corner mask, the bit is set exactly
    when corner 0 and its neighbour on that axis (corner 1, 2 or 4) differ
    in sign; so a quad across an edge is attempted only where the field
    changes sign along that edge, and never otherwise. *)
Theorem X7_stitched_edges_leave_corner_0 (mask : Z) (vb : gmap string nat)
    (x y z : Z) (fs : list face) :
  0 <= mask < 256 ->
  let edgeMask := get (edgeTable new_SurfaceNets) mask in
  (edge_from 0 = 0 /\ edge_to 0 = 1 /\ edge_from 1 = 0 /\ edge_to 1 = 2 /\
   edge_from 2 = 0 /\ edge_to 2 = 4) /\
  (truthy (band edgeMask 1) = xorb (Z.testbit mask 0) (Z.testbit mask 1) /\
   truthy (band edgeMask 2) = xorb (Z.testbit mask 0) (Z.testbit mask 2) /\
   truthy (band edgeMask 4) = xorb (Z.testbit mask 0) (Z.testbit mask 4)) /\
  (Z.testbit mask 0 = Z.testbit mask 1 -> stitch_x vb mask edgeMask x y z fs = fs) /\
  (Z.testbit mask 0 = Z.testbit mask 2 -> stitch_y vb mask edgeMask x y z fs = fs) /\
  (Z.testbit mask 0 = Z.testbit mask 4 -> stitch_z vb mask edgeMask x y z fs = fs).
Proof.
  intros Hm edgeMask. destruct (stitched_bits mask Hm) as (H1 & H2 & H4).
  fold edgeMask in H1, H2, H4.
  split; [repeat split; vm_compute; reflexivity|].
  split; [repeat split; assumption|].
  unfold stitch_x, stitch_y, stitch_z. rewrite H1, H2, H4.
  repeat split; intros ->; rewrite xorb_nilpotent; reflexivity.
Qed.

End StitchedEdges.

Lemma X7_stitched_edges_leave_corner_0_witness :
  Extract.stitch_y ∅ 0x0A (JS.get (edgeTable new_SurfaceNets) 0x0A) 1 1 1 [] = [].
Proof.
  destruct (X7_stitched_edges_leave_corner_0 0x0A ∅ 1 1 1 []) as (_ & _ & _ & Hy & _);
    [lia|].
  apply Hy. reflexivity.
Defined.

(** ** The order of binary64 *)

Section FloatOrder.
Import Float64.
Local Open Scope float_scope.

Lemma SFltb_rank (a b : spec_float) :
  SFltb a b = true <->
  exists p q, SFrank a = Some p /\ SFrank b = Some q /\ rank_lt p q.
Proof.
  unfold SFltb, rank_lt.
  destruct a as [s1|s1| |s1 m1 e1], b as [s2|s2| |s2 m2 e2];
    try destruct s1; try destruct s2; cbn [SFcompare SFrank].
  all: try change (Pos.compare_cont Eq m1 m2) with (m1 ?= m2)%positive.
  all: try (destruct (Z.compare_spec e1 e2), (Pos.compare_spec m1 m2);
            cbn [CompOpp]).
  all: split;
    [ intros Hc; try discriminate Hc; eexists _, _;
      (split; [reflexivity|split; [reflexivity|cbn; lia]])
    | intros (p & q & Hp & Hq & Hlt); try discriminate Hp; try discriminate Hq;
      injection Hp as <-; injection Hq as <-; cbn in Hlt; try reflexivity; lia ].
Qed.

Lemma ltb_rank (a b : float) :
  (a <? b) = true <->
  exists p q, rank a = Some p /\ rank b = Some q /\ rank_lt p q.
Proof. rewrite ltb_spec. apply SFltb_rank. Qed.

Lemma rank_not_nan (a : float) :
  is_nan a = false <-> exists p, rank a = Some p.
Proof.
  unfold rank. split.
  - intros Hn. destruct (Prim2SF a) as [s|s| |s m e] eqn:Ha;
      try destruct s; try (eexists; reflexivity).
    apply is_nan_spec in Ha. congruence.
  - intros [p Hp]. destruct (is_nan a) eqn:Hn; [|reflexivity].
    apply is_nan_spec in Hn. rewrite Hn in Hp. discriminate.
Qed.

Lemma ltb_false_rank (a b : float) (p q : Z * Z * Z) :
  rank a = Some p -> rank b = Some q -> (a <? b) = false -> ~ rank_lt p q.
Proof.
  intros Hp Hq Hlt H.
  assert ((a <? b) = true) by (apply ltb_rank; eauto). congruence.
Qed.

Lemma rank_zero : rank 0 = Some (0, 0, 0)%Z.
Proof. reflexivity. Qed.

Lemma rank_opp (a : float) (p : Z * Z * Z) :
  rank a = Some p -> rank (- a) = Some (- p.1.1, - p.1.2, - p.2)%Z.
Proof.
  unfold rank. rewrite opp_spec.
  destruct (Prim2SF a) as [s|s| |s m e]; try destruct s; cbn;
    intros H; try discriminate H; injection H as <-; cbn; f_equal;
    repeat f_equal; lia.
Qed.

(** [Math.min] and [Math.max] of two numbers return one of them, chosen by
    rank. *)
Lemma Math_min_rank (a b : float) (p q : Z * Z * Z) :
  rank a = Some p -> rank b = Some q ->
  exists r, rank (Math_min a b) = Some r /\ (r = p \/ r = q) /\
            ~ rank_lt p r /\ ~ rank_lt q r.
Proof.
  intros Hp Hq. unfold Math_min.
  assert (Hna : is_nan a = false) by (apply rank_not_nan; eauto).
  assert (Hnb : is_nan b = false) by (apply rank_not_nan; eauto).
  rewrite Hna, Hnb. cbn [orb].
  assert (Hgen : exists r, rank (if b <? a then b else a) = Some r /\
                   (r = p \/ r = q) /\ ~ rank_lt p r /\ ~ rank_lt q r).
  { destruct (b <? a) eqn:Hlt.
    - apply ltb_rank in Hlt as (q' & p' & Hq' & Hp' & Hlt).
      rewrite Hq in Hq'. rewrite Hp in Hp'. injection Hq' as <-. injection Hp' as <-.
      exists q. split; [exact Hq|]. unfold rank_lt in *. repeat split; [right; reflexivity|lia|lia].
    - pose proof (ltb_false_rank b a q p Hq Hp Hlt) as Hnlt.
      exists p. split; [exact Hp|]. unfold rank_lt in *. repeat split; [left; reflexivity|lia|lia]. }
  unfold rank in Hp, Hq.
  destruct (Prim2SF a) as [[]|s| |s m e] eqn:Ha;
    destruct (Prim2SF b) as [[]|s'| |s' m' e'] eqn:Hb; try exact Hgen.
  exists q. unfold rank. rewrite Hb. split; [exact Hq|].
  cbn in Hp, Hq. injection Hp as <-. injection Hq as <-.
  unfold rank_lt. cbn. repeat split; [left; reflexivity|lia|lia].
Qed.

Lemma Math_max_rank (a b : float) (p q : Z * Z * Z) :
  rank a = Some p -> rank b = Some q ->
  exists r, rank (Math_max a b) = Some r /\ (r = p \/ r = q) /\
            ~ rank_lt r p /\ ~ rank_lt r q.
Proof.
  intros Hp Hq. unfold Math_max.
  assert (Hna : is_nan a = false) by (apply rank_not_nan; eauto).
  assert (Hnb : is_nan b = false) by (apply rank_not_nan; eauto).
  rewrite Hna, Hnb. cbn [orb].
  assert (Hgen : exists r, rank (if a <? b then b else a) = Some r /\
                   (r = p \/ r = q) /\ ~ rank_lt r p /\ ~ rank_lt r q).
  { destruct (a <? b) eqn:Hlt.
    - apply ltb_rank in Hlt as (p' & q' & Hp' & Hq' & Hlt).
      rewrite Hq in Hq'. rewrite Hp in Hp'. injection Hq' as <-. injection Hp' as <-.
      exists q. split; [exact Hq|]. unfold rank_lt in *. repeat split; [right; reflexivity|lia|lia].
    - pose proof (ltb_false_rank a b p q Hp Hq Hlt) as Hnlt.
      exists p. split; [exact Hp|]. unfold rank_lt in *. repeat split; [left; reflexivity|lia|lia]. }
  unfold rank in Hp, Hq.
  destruct (Prim2SF a) as [[]|s| |s m e] eqn:Ha;
    destruct (Prim2SF b) as [[]|s'| |s' m' e'] eqn:Hb; try exact Hgen.
  exists q. unfold rank. rewrite Hb. split; [exact Hq|].
  cbn in Hp, Hq. injection Hp as <-. injection Hq as <-.
  unfold rank_lt. cbn. repeat split; [left; reflexivity|lia|lia].
Qed.

End FloatOrder.

(** ** Edits of the signed distance function *)

Section EditFacts.
Import Float64 Planet.
Local Open Scope float_scope.

Lemma SFeqb_rank (a b : spec_float) :
  SFeqb a b = true <-> exists p, SFrank a = Some p /\ SFrank b = Some p.
Proof.
  unfold SFeqb.
  destruct a as [s1|s1| |s1 m1 e1], b as [s2|s2| |s2 m2 e2];
    try destruct s1; try destruct s2; cbn [SFcompare SFrank].
  all: try change (Pos.compare_cont Eq m1 m2) with (m1 ?= m2)%positive.
  all: try (destruct (Z.compare_spec e1 e2), (Pos.compare_spec m1 m2);
            cbn [CompOpp]).
  all: split;
    [ intros Hc; try discriminate Hc; eexists; split; try reflexivity;
      repeat f_equal; lia
    | intros (p & Hp & Hq); try discriminate Hp; try discriminate Hq;
      try reflexivity; rewrite <- Hq in Hp; injection Hp; intros; lia ].
Qed.

Lemma eqb_rank (a b : float) :
  (a =? b) = true <-> exists p, rank a = Some p /\ rank b = Some p.
Proof. rewrite FloatAxioms.eqb_spec. apply SFeqb_rank. Qed.

(** The two folds of an edit, inside its sphere. *)
Lemma max_inside (d m : float) :
  is_nan d = false -> (m <? 0) = true -> (0 <? Math_max d (- m)) = true.
Proof.
  intros Hd Hm. apply rank_not_nan in Hd as [pd Hpd].
  apply ltb_rank in Hm as (pm & z & Hpm & Hz & Hlt).
  rewrite rank_zero in Hz. injection Hz as <-.
  destruct (Math_max_rank d (- m) pd _ Hpd (rank_opp m pm Hpm))
    as (r & Hr & _ & _ & Hge).
  apply ltb_rank. exists (0, 0, 0)%Z, r. split; [apply rank_zero|].
  split; [exact Hr|].
  destruct pm as [[p1 p2] p3], r as [[r1 r2] r3].
  unfold rank_lt in *. cbn in *. lia.
Qed.

Lemma min_inside (d m : float) :
  is_nan d = false -> (m <? 0) = true -> (Math_min d m <? 0) = true.
Proof.
  intros Hd Hm. apply rank_not_nan in Hd as [pd Hpd].
  apply ltb_rank in Hm as (pm & z & Hpm & Hz & Hlt).
  rewrite rank_zero in Hz. injection Hz as <-.
  destruct (Math_min_rank d m pd pm Hpd Hpm) as (r & Hr & _ & _ & Hle).
  apply ltb_rank. exists r, (0, 0, 0)%Z. split; [exact Hr|].
  split; [apply rank_zero|].
  destruct pm as [[p1 p2] p3], r as [[r1 r2] r3].
  unfold rank_lt in *. cbn in *. lia.
Qed.

Lemma min_outside (d m : float) :
  is_nan d = false -> is_nan m = false -> (m <? d) = false ->
  (Math_min d m =? d) = true.
Proof.
  intros Hd Hm Hlt. apply rank_not_nan in Hd as [pd Hpd].
  apply rank_not_nan in Hm as [pm Hpm].
  pose proof (ltb_false_rank m d pm pd Hpm Hpd Hlt) as Hn.
  destruct (Math_min_rank d m pd pm Hpd Hpm) as (r & Hr & Hor & Hle1 & Hle2).
  apply eqb_rank. exists pd. split; [|exact Hpd]. rewrite Hr. f_equal.
  destruct Hor as [->| ->]; [reflexivity|].
  destruct pm as [[p1 p2] p3], pd as [[d1 d2] d3].
  unfold rank_lt in *. cbn in *.
  assert (p1 = d1 /\ p2 = d2 /\ p3 = d3) as (-> & -> & ->) by lia. reflexivity.
Qed.

Lemma max_outside (d m : float) :
  is_nan d = false -> is_nan m = false -> (d <? m) = false ->
  (Math_max d m =? d) = true.
Proof.
  intros Hd Hm Hlt. apply rank_not_nan in Hd as [pd Hpd].
  apply rank_not_nan in Hm as [pm Hpm].
  pose proof (ltb_false_rank d m pd pm Hpd Hpm Hlt) as Hn.
  destruct (Math_max_rank d m pd pm Hpd Hpm) as (r & Hr & Hor & Hle1 & Hle2).
  apply eqb_rank. exists pd. split; [|exact Hpd]. rewrite Hr. f_equal.
  destruct Hor as [->| ->]; [reflexivity|].
  destruct pm as [[p1 p2] p3], pd as [[d1 d2] d3].
  unfold rank_lt in *. cbn in *.
  assert (p1 = d1 /\ p2 = d2 /\ p3 = d3) as (-> & -> & ->) by lia. reflexivity.
Qed.

Lemma ltb_not_nan (a b : float) :
  (a <? b) = true -> is_nan a = false /\ is_nan b = false.
Proof.
  intros H. apply ltb_rank in H as (p & q & Hp & Hq & _).
  split; apply rank_not_nan; eauto.
Qed.

Lemma is_nan_opp (a : float) : is_nan (- a) = is_nan a.
Proof.
  destruct (is_nan a) eqn:Ha.
  - apply is_nan_eq in Ha. subst a. reflexivity.
  - apply rank_not_nan in Ha as [p Hp]. apply rank_not_nan.
    eexists. apply rank_opp, Hp.
Qed.

(** X8. An edit takes effect inside its sphere: at a point where the
    signed distance is a number and that lies strictly inside the sphere of
    the edit, the distance is negative (solid) after [place] and positive
    (empty) after [mine]. *)
Theorem X8_edit_inside_sphere (this : TinyPlanet) (pos : Vector3)
    (r : option float) (x y z : float) :
  is_nan (sdf this x y z) = false ->
  (distanceToModSphere x y z (mkModification pos (default 2 r) true) <? 0) = true ->
  (sdf (place this pos r) x y z <? 0) = true /\
  (0 <? sdf (mine this pos r) x y z) = true.
Proof.
  intros Hd Hm. unfold place, mine. rewrite !sdf_push.
  unfold apply_modification. cbn [add].
  split; [apply min_inside|apply max_inside]; assumption.
Qed.

(** X9. An edit is local: at a point where the signed distance [d] is a
    number, [place] leaves it as it is when the distance [m] to the placed
    sphere is a number not below [d], and [mine] leaves it as it is when
    [- m] is not above [d]. *)
Theorem X9_edit_outside_reach (this : TinyPlanet) (pos : Vector3)
    (r : option float) (x y z : float) :
  let d := sdf this x y z in
  let m := distanceToModSphere x y z (mkModification pos (default 2 r) true) in
  is_nan d = false -> is_nan m = false ->
  ((m <? d) = false -> (sdf (place this pos r) x y z =? d) = true) /\
  ((d <? - m) = false -> (sdf (mine this pos r) x y z =? d) = true).
Proof.
  intros d m Hd Hm. unfold place, mine. rewrite !sdf_push.
  unfold apply_modification. cbn [add]. fold d.
  split; intros Hlt.
  - apply min_outside; assumption.
  - apply max_outside; [assumption| |assumption].
    rewrite is_nan_opp. exact Hm.
Qed.

(** X10. The last edit wins: at a point where the signed distance is a
    number and that lies strictly inside a sphere, mining the sphere and
    then placing it leaves the point solid, placing it and then mining it
    leaves the point empty. *)
Theorem X10_last_edit_wins (this : TinyPlanet) (pos : Vector3)
    (r : option float) (x y z : float) :
  is_nan (sdf this x y z) = false ->
  (distanceToModSphere x y z (mkModification pos (default 2 r) true) <? 0) = true ->
  (sdf (place (mine this pos r) pos r) x y z <? 0) = true /\
  (0 <? sdf (mine (place this pos r) pos r) x y z) = true.
Proof.
  intros Hd Hm. unfold place, mine. rewrite !sdf_push.
  unfold apply_modification. cbn [add].
  split.
  - apply min_inside; [|exact Hm].
    apply (ltb_not_nan 0). apply max_inside; assumption.
  - apply max_inside; [|exact Hm].
    apply (ltb_not_nan _ 0). apply min_inside; assumption.
Qed.

Lemma sdf_push_plain (this : TinyPlanet) (m : Modification) (x y z : float) :
  sdf (push_modification this m) x y z =
  apply_modification x y z (sdf this x y z) m.
Proof.
  unfold sdf.
  change (modifications (push_modification this m))
    with (modifications this ++ [m]).
  change (terrain (push_modification this m) x y z) with (terrain this x y z).
  rewrite foldl_app. reflexivity.
Qed.

Lemma apply_modification_nan_radius (x y z d : float) (pos : Vector3) (a : bool) :
  apply_modification x y z d (mkModification pos nan a) = nan.
Proof.
  unfold apply_modification. cbn [position mod_radius add].
  rewrite sub_nan_r. change (- nan) with nan.
  destruct a; [unfold Math_min|unfold Math_max]; rewrite orb_true_r; reflexivity.
Qed.

(** X11. An edit whose radius is NaN erases the planet: after it the
    signed distance is NaN at every point, no sample is negative, and the
    regenerated mesh is empty. *)
Theorem X11_nan_radius_erases_mesh (this : TinyPlanet) (pos : Vector3)
    (x y z : float) :
  sdf (mine this pos (Some nan)) x y z = nan /\
  sdf (place this pos (Some nan)) x y z = nan /\
  mesh (mine this pos (Some nan)) = ([], []) /\
  mesh (place this pos (Some nan)) = ([], []).
Proof.
  unfold place, mine. rewrite !sdf_push. cbn [default].
  rewrite !apply_modification_nan_radius.
  split; [reflexivity|]. split; [reflexivity|].
  split.
  - apply (constant_sign_empty (F := float) (W := unit)).
    left. intros a b c. rewrite sdf_push_plain, apply_modification_nan_radius.
    reflexivity.
  - apply (constant_sign_empty (F := float) (W := unit)).
    left. intros a b c. rewrite sdf_push_plain, apply_modification_nan_radius.
    reflexivity.
Qed.

End EditFacts.

Lemma X8_edit_inside_sphere_witness :
  (Planet.sdf (Planet.place mote_planet (Planet.mkVector3 26 0 0) (Some 3%float)) 27 0 0
     <? 0)%float = true /\
  (0 <? Planet.sdf (Planet.mine mote_planet (Planet.mkVector3 26 0 0) (Some 3%float)) 27 0 0)%float
     = true.
Proof.
  apply (X8_edit_inside_sphere mote_planet (Planet.mkVector3 26 0 0) (Some 3%float) 27 0 0).
  - lazy. reflexivity.
  - lazy. reflexivity.
Defined.

Lemma X9_edit_outside_reach_witness :
  (Planet.sdf (Planet.place mote_planet (Planet.mkVector3 26 0 0) (Some 3%float)) 0 30 0
     =? Planet.sdf mote_planet 0 30 0)%float = true /\
  (Planet.sdf (Planet.mine mote_planet (Planet.mkVector3 26 0 0) (Some 3%float)) 0 30 0
     =? Planet.sdf mote_planet 0 30 0)%float = true.
Proof.
  destruct (X9_edit_outside_reach mote_planet (Planet.mkVector3 26 0 0)
              (Some 3%float) 0 30 0) as [Hplace Hmine].
  - lazy. reflexivity.
  - lazy. reflexivity.
  - split; [apply Hplace|apply Hmine]; lazy; reflexivity.
Defined.

Lemma X10_last_edit_wins_witness :
  (Planet.sdf (Planet.place (Planet.mine mote_planet (Planet.mkVector3 26 0 0)
                               (Some 3%float))
                 (Planet.mkVector3 26 0 0) (Some 3%float)) 27 0 0 <? 0)%float = true /\
  (0 <? Planet.sdf (Planet.mine (Planet.place mote_planet (Planet.mkVector3 26 0 0)
                                    (Some 3%float))
                      (Planet.mkVector3 26 0 0) (Some 3%float)) 27 0 0)%float = true.
Proof.
  apply (X10_last_edit_wins mote_planet (Planet.mkVector3 26 0 0) (Some 3%float) 27 0 0).
  - lazy. reflexivity.
  - lazy. reflexivity.
Defined.


(** ** Edits of the same kind *)

Section EditOrder.
Import Float64 Planet.
Local Open Scope float_scope.

Lemma rank_nan (a : float) : is_nan a = true -> rank a = None.
Proof.
  intros H. destruct (rank a) as [p|] eqn:Hp; [|reflexivity].
  assert (is_nan a = false) by (apply rank_not_nan; eauto). congruence.
Qed.

Lemma same_number_rank (a b : float) : rank a = rank b -> same_number a b.
Proof.
  intros H. destruct (rank a) as [p|] eqn:Hp.
  - left. apply eqb_rank. exists p. split; [exact Hp|]. symmetry. exact H.
  - right. split.
    + destruct (is_nan a) eqn:Ha; [reflexivity|].
      apply rank_not_nan in Ha as [q Hq]. congruence.
    + destruct (is_nan b) eqn:Hb; [reflexivity|].
      apply rank_not_nan in Hb as [q Hq]. congruence.
Qed.

Lemma Math_min_nan_l (b : float) : Math_min nan b = nan.
Proof. reflexivity. Qed.

Lemma Math_min_nan_r (a : float) : Math_min a nan = nan.
Proof. unfold Math_min. rewrite orb_true_r. reflexivity. Qed.

Lemma Math_max_nan_l (b : float) : Math_max nan b = nan.
Proof. reflexivity. Qed.

Lemma Math_max_nan_r (a : float) : Math_max a nan = nan.
Proof. unfold Math_max. rewrite orb_true_r. reflexivity. Qed.

Ltac rank_cases a :=
  let H := fresh "Hn" in
  destruct (is_nan a) eqn:H;
  [ apply is_nan_eq in H; subst a;
    rewrite ?Math_min_nan_l, ?Math_min_nan_r, ?Math_max_nan_l, ?Math_max_nan_r;
    reflexivity
  | apply rank_not_nan in H as [? H] ].

Lemma Math_min_swap (d a b : float) :
  rank (Math_min (Math_min d a) b) = rank (Math_min (Math_min d b) a).
Proof.
  rank_cases d. rank_cases a. rank_cases b.
  destruct (Math_min_rank d a _ _ Hn Hn0) as (r1 & Hr1 & Ho1 & Hd1 & Ha1).
  destruct (Math_min_rank _ b _ _ Hr1 Hn1) as (r2 & Hr2 & Ho2 & Hd2 & Hb2).
  destruct (Math_min_rank d b _ _ Hn Hn1) as (s1 & Hs1 & Po1 & Pd1 & Pb1).
  destruct (Math_min_rank _ a _ _ Hs1 Hn0) as (s2 & Hs2 & Po2 & Pd2 & Pa2).
  rewrite Hr2, Hs2. f_equal.
  destruct x as [[d1 d2] d3], x0 as [[a1 a2] a3], x1 as [[b1 b2] b3],
    r1 as [[r11 r12] r13], r2 as [[r21 r22] r23],
    s1 as [[s11 s12] s13], s2 as [[s21 s22] s23].
  unfold rank_lt in *. cbn [fst snd] in *.
  assert (r21 = s21 /\ r22 = s22 /\ r23 = s23) as (-> & -> & ->); [|reflexivity].
  destruct Ho1 as [E1|E1], Ho2 as [E2|E2], Po1 as [E3|E3], Po2 as [E4|E4];
    injection E1 as -> -> ->; injection E2 as -> -> ->;
    injection E3 as -> -> ->; injection E4 as -> -> ->; lia.
Qed.

Lemma Math_max_swap (d a b : float) :
  rank (Math_max (Math_max d a) b) = rank (Math_max (Math_max d b) a).
Proof.
  rank_cases d. rank_cases a. rank_cases b.
  destruct (Math_max_rank d a _ _ Hn Hn0) as (r1 & Hr1 & Ho1 & Hd1 & Ha1).
  destruct (Math_max_rank _ b _ _ Hr1 Hn1) as (r2 & Hr2 & Ho2 & Hd2 & Hb2).
  destruct (Math_max_rank d b _ _ Hn Hn1) as (s1 & Hs1 & Po1 & Pd1 & Pb1).
  destruct (Math_max_rank _ a _ _ Hs1 Hn0) as (s2 & Hs2 & Po2 & Pd2 & Pa2).
  rewrite Hr2, Hs2. f_equal.
  destruct x as [[d1 d2] d3], x0 as [[a1 a2] a3], x1 as [[b1 b2] b3],
    r1 as [[r11 r12] r13], r2 as [[r21 r22] r23],
    s1 as [[s11 s12] s13], s2 as [[s21 s22] s23].
  unfold rank_lt in *. cbn [fst snd] in *.
  assert (r21 = s21 /\ r22 = s22 /\ r23 = s23) as (-> & -> & ->); [|reflexivity].
  destruct Ho1 as [E1|E1], Ho2 as [E2|E2], Po1 as [E3|E3], Po2 as [E4|E4];
    injection E1 as -> -> ->; injection E2 as -> -> ->;
    injection E3 as -> -> ->; injection E4 as -> -> ->; lia.
Qed.

(** X12. Edits of the same kind commute: at every point, placing two
    spheres in either order gives the same signed distance, and so does
    mining two spheres in either order. *)
Theorem X12_same_kind_edits_commute (this : TinyPlanet) (p1 p2 : Vector3)
    (r1 r2 : option float) (x y z : float) :
  same_number (sdf (place (place this p1 r1) p2 r2) x y z)
              (sdf (place (place this p2 r2) p1 r1) x y z) /\
  same_number (sdf (mine (mine this p1 r1) p2 r2) x y z)
              (sdf (mine (mine this p2 r2) p1 r1) x y z).
Proof.
  unfold place, mine. rewrite !sdf_push.
  unfold apply_modification. cbn [add position mod_radius].
  split; apply same_number_rank; [apply Math_min_swap|apply Math_max_swap].
Qed.

End EditOrder.

(** ** The noise function *)

Section NoiseFacts.
Import JS Float64 Planet.
Local Open Scope float_scope.

Lemma band_255 (a : Z) : (0 <= band a 255 < 256)%Z.
Proof.
  unfold band. change (JS.ToInt32 255) with (Z.ones 8).
  rewrite Z.land_ones by lia. apply Z.mod_pos_bound. lia.
Qed.

Lemma band_15 (a : Z) : (0 <= band a 15 < 16)%Z.
Proof.
  unfold band. change (JS.ToInt32 15) with (Z.ones 4).
  rewrite Z.land_ones by lia. apply Z.mod_pos_bound. lia.
Qed.

Lemma initNoise_bytes (i : Z) :
  (0 <= i < 512)%Z -> (0 <= get initNoise i < 256)%Z.
Proof.
  intros Hi.
  pose proof (forall_range
                (fun i => (0 <=? get initNoise i)%Z && (get initNoise i <? 256)%Z)
                0 512) as H.
  cbv beta in H. specialize (H ltac:(vm_compute; reflexivity) i ltac:(lia)).
  apply andb_prop in H as [H1 H2]. lia.
Qed.

(** X13. The noise function stays inside its table: with the table of
    [initNoise], the result depends on the entries 0..511 only, whatever
    the coordinates are. *)
Theorem X13_noise_reads_within_table (perm' : list Z) (x y z : float) :
  (forall i, (0 <= i < 512)%Z -> get perm' i = get initNoise i) ->
  noise3D perm' x y z = noise3D initNoise x y z.
Proof.
  intros H. unfold noise3D. cbv zeta.
  generalize (band_255 (ToInt32 (Math_floor x))),
    (band_255 (ToInt32 (Math_floor y))), (band_255 (ToInt32 (Math_floor z))).
  generalize (band (ToInt32 (Math_floor x)) 255),
    (band (ToInt32 (Math_floor y)) 255), (band (ToInt32 (Math_floor z)) 255).
  intros X Y Z0 HX HY HZ.
  pose proof (initNoise_bytes X ltac:(lia)) as HpX.
  pose proof (initNoise_bytes (X + 1) ltac:(lia)) as HpX1.
  rewrite (H X), (H (X + 1)%Z) by lia.
  set (A := (get initNoise X + Y)%Z) in *.
  set (B := (get initNoise (X + 1) + Y)%Z) in *.
  assert (HA : (0 <= A < 511)%Z) by (unfold A; lia).
  assert (HB : (0 <= B < 511)%Z) by (unfold B; lia).
  pose proof (initNoise_bytes A ltac:(lia)) as HpA.
  pose proof (initNoise_bytes (A + 1) ltac:(lia)) as HpA1.
  pose proof (initNoise_bytes B ltac:(lia)) as HpB.
  pose proof (initNoise_bytes (B + 1) ltac:(lia)) as HpB1.
  rewrite (H A), (H (A + 1)%Z), (H B), (H (B + 1)%Z) by lia.
  rewrite !H by lia. reflexivity.
Qed.

Lemma sub_diag_finite (a : float) : isFinite a = true -> a - a = 0.
Proof.
  unfold isFinite. intros Hf.
  destruct (Prim2SF a) as [s|s| |s m e] eqn:Ha; try discriminate Hf.
  - apply Prim2SF_inj. rewrite sub_spec, Ha. destruct s; reflexivity.
  - apply Prim2SF_inj. rewrite sub_spec, Ha.
    unfold SF64sub, SFsub. rewrite Z.sub_diag. reflexivity.
Qed.

Lemma sub_diag_not_finite (a : float) : isFinite a = false -> a - a = nan.
Proof.
  unfold isFinite. intros Hf.
  destruct (Prim2SF a) as [s|s| |s m e] eqn:Ha; try discriminate Hf.
  - apply is_nan_of_SF. rewrite sub_spec, Ha. destruct s; reflexivity.
  - apply is_nan_of_SF. rewrite sub_spec, Ha. reflexivity.
Qed.

Lemma Math_floor_not_finite (a : float) : isFinite a = false -> Math_floor a = a.
Proof.
  unfold isFinite, Math_floor. destruct (Prim2SF a); intros Hf;
    try discriminate Hf; reflexivity.
Qed.

Lemma lerp_nan_b (a t : float) : lerp a nan t = nan.
Proof. unfold lerp. rewrite sub_nan_l, mul_nan_r. apply add_nan_r. Qed.

(** X14. Off the finite numbers the noise is undefined: when a coordinate
    is NaN or an infinity the result is NaN, whatever the table holds. *)
Theorem X14_noise_of_non_finite (perm : list Z) (x y z : float) :
  isFinite x = false \/ isFinite y = false \/ isFinite z = false ->
  noise3D perm x y z = nan.
Proof.
  intros [H|[H|H]]; unfold noise3D; cbv zeta;
    rewrite (Math_floor_not_finite _ H), (sub_diag_not_finite _ H);
    change (fade nan) with nan;
    rewrite ?lerp_nan_t, ?lerp_nan_a, ?lerp_nan_b; reflexivity.
Qed.

Lemma small_cases (k : Z) :
  (0 <= k < 16)%Z ->
  (k = 0 \/ k = 1 \/ k = 2 \/ k = 3 \/ k = 4 \/ k = 5 \/ k = 6 \/ k = 7 \/ k = 8 \/
   k = 9 \/ k = 10 \/ k = 11 \/ k = 12 \/ k = 13 \/ k = 14 \/ k = 15)%Z.
Proof. lia. Qed.

Ltac pick_value :=
  first [ reflexivity | left; reflexivity | right; pick_value ].

Lemma grad_zero (h : Z) : zero_value (grad h 0 0 0).
Proof.
  unfold grad. generalize (band_15 h). generalize (band h 15). intros k Hk.
  apply small_cases in Hk.
  repeat destruct Hk as [->|Hk]; try subst k; vm_compute; pick_value.
Qed.

Lemma grad_lattice (h : Z) (a b c : float) :
  (a = 0 \/ a = -1) -> (b = 0 \/ b = -1) -> (c = 0 \/ c = -1) ->
  lattice_value (grad h a b c).
Proof.
  intros [->| ->] [->| ->] [->| ->].
  all: unfold grad; generalize (band_15 h); generalize (band h 15); intros k Hk;
    apply small_cases in Hk;
    repeat destruct Hk as [->|Hk]; try subst k; vm_compute; pick_value.
Qed.

Lemma lerp_lattice (a b : float) :
  lattice_value a -> lattice_value b -> lattice_value (lerp a b 0).
Proof.
  unfold lattice_value.
  intros [->|[->|[->|[->|[->| ->]]]]] [->|[->|[->|[->|[->| ->]]]]];
    vm_compute; pick_value.
Qed.

Lemma lerp_zero (a b : float) :
  zero_value a -> lattice_value b -> zero_value (lerp a b 0).
Proof.
  unfold lattice_value, zero_value.
  intros [->| ->] [->|[->|[->|[->|[->| ->]]]]]; vm_compute; pick_value.
Qed.

(** X15. The noise vanishes on the lattice: at a point whose three
    coordinates are finite whole numbers the result is zero, whatever the
    table holds. *)
Theorem X15_noise_zero_on_lattice (perm : list Z) (x y z : float) :
  isFinite x = true -> isFinite y = true -> isFinite z = true ->
  Math_floor x = x -> Math_floor y = y -> Math_floor z = z ->
  (noise3D perm x y z =? 0) = true.
Proof.
  intros Fx Fy Fz Hx Hy Hz. unfold noise3D. cbv zeta.
  rewrite Hx, Hy, Hz.
  rewrite (sub_diag_finite x Fx), (sub_diag_finite y Fy), (sub_diag_finite z Fz).
  change (fade 0) with 0. change (0 - 1) with (-1).
  assert (Hz0 : forall a, zero_value a -> (a =? 0) = true).
  { intros a [->| ->]; reflexivity. }
  apply Hz0.
  repeat first
    [ apply lerp_zero | apply lerp_lattice | apply grad_zero
    | apply grad_lattice; [first [left; reflexivity|right; reflexivity]..] ].
Qed.

End NoiseFacts.

Lemma X13_noise_reads_within_table_witness :
  Planet.noise3D (Planet.initNoise ++ [7; 7; 7]) 3.25%float (-7.5)%float 1000.125%float =
  Planet.noise3D Planet.initNoise 3.25%float (-7.5)%float 1000.125%float.
Proof.
  apply (X13_noise_reads_within_table (Planet.initNoise ++ [7; 7; 7])).
  intros i Hi.
  apply (forall_range
           (fun i => (JS.get (Planet.initNoise ++ [7; 7; 7]) i =? JS.get Planet.initNoise i)%Z)
           0 512 (eq_refl : _ = true)) in Hi. cbv beta in Hi. lia.
Defined.

Lemma X14_noise_of_non_finite_witness :
  Planet.noise3D Planet.initNoise 1 infinity 2 = nan.
Proof.
  apply (X14_noise_of_non_finite Planet.initNoise 1 infinity 2).
  right. left. reflexivity.
Defined.

Lemma X15_noise_zero_on_lattice_witness :
  (Planet.noise3D Planet.initNoise 3 (-7) 0 =? 0)%float = true.
Proof.
  apply (X15_noise_zero_on_lattice Planet.initNoise 3 (-7) 0); reflexivity.
Defined.


(** ** The vertices of a field without effects *)

Section LoopListed.
Context {W A St B : Type}.

(** A body that extends a listed invariant by [g a] extends it, over the
    loop, by the concatenation of the [g a]. *)
Lemma forM_listed (I : St -> list B -> Prop) (body : St -> A -> M W St)
    (g : A -> list B) (l : list A) :
  (forall s a w done, I s done -> I (fst (body s a w)) (done ++ g a)) ->
  forall s w done, I s done -> I (fst (forM l body s w)) (done ++ (l ≫= g)).
Proof.
  intros Hbody. induction l as [|a l IH]; intros s w done Hs; cbn [forM].
  - cbn. rewrite app_nil_r. exact Hs.
  - unfold bind. pose proof (Hbody s a w done Hs) as H1.
    destruct (body s a w) as [s1 w1]. cbn [fst] in H1.
    rewrite bind_cons, app_assoc. apply IH, H1.
Qed.

End LoopListed.

Section PureVertices.
Import JS Extract.
Context {F : Type} {num : Num F} {W : Type}.

Lemma cell_pure_listed (sn : SurfaceNets) (f : F -> F -> F -> F)
    (bounds : vec3 F * vec3 F) (resolution x y z : Z) (st : state F) (w : W)
    (done : list (Z * Z * Z)) :
  vertices st = cell_vertex sn f bounds resolution
                  <$> List.filter (crossing_cell f bounds resolution) done /\
  length (grid st) = 8%nat ->
  let st' := fst (cell sn (pure_field f) bounds (cell_scale bounds resolution)
                    x y z st w) in
  vertices st' = cell_vertex sn f bounds resolution
                   <$> List.filter (crossing_cell f bounds resolution)
                         (done ++ [(x, y, z)]) /\
  length (grid st') = 8%nat.
Proof.
  cbv zeta. intros [Hv Hlen]. unfold cell, bind.
  destruct (sample_corners_pure f
              (nadd (c0 (fst bounds)) (nmul (of_int x) (c0 (cell_scale bounds resolution))))
              (nadd (c1 (fst bounds)) (nmul (of_int y) (c1 (cell_scale bounds resolution))))
              (nadd (c2 (fst bounds)) (nmul (of_int z) (c2 (cell_scale bounds resolution))))
              (cell_scale bounds resolution) (grid st) w) as (Hmask & _ & Hgr).
  specialize (Hgr Hlen).
  destruct (sample_corners (pure_field f) _ _ _ (cell_scale bounds resolution)
              (grid st) w) as [[gr mask] w1].
  cbn [fst snd] in Hmask, Hgr. subst mask gr.
  rewrite List.filter_app, fmap_app. cbn [List.filter].
  unfold crossing_cell at 2. unfold cell_values, cell_origin. cbn [c0 c1 c2].
  change ((x, y, z).1.1) with x. change ((x, y, z).1.2) with y.
  change ((x, y, z).2) with z.
  destruct ((_ =? 0) || (_ =? 255)); cbn [negb fmap list_fmap].
  - cbn [fst ret vertices grid]. rewrite app_nil_r.
    split; [exact Hv|]. rewrite length_fmap. apply corner_values_length.
  - unfold cell_vertex at 2. unfold cell_values, cell_origin. cbn [c0 c1 c2].
    change ((x, y, z).1.1) with x. change ((x, y, z).1.2) with y.
    change ((x, y, z).2) with z.
    destruct (accumulate_edges sn _ _) as [v vertCount].
    cbn [fst ret vertices grid]. rewrite Hv.
    split; [reflexivity|]. rewrite length_fmap. apply corner_values_length.
Qed.

(** X16. The vertices of a field without effects: in the order of the
    loop nest, one vertex for each cell whose corner mask is neither 0 nor
    255 and none for the others, each vertex computed from the 8 samples of
    its own cell; the buffer [grid], shared by all the cells, carries
    nothing from one cell to the next. *)
Theorem X16_vertices_of_pure_field (sn : SurfaceNets) (f : F -> F -> F -> F)
    (bounds : vec3 F * vec3 F) (resolution : Z) (w : W) :
  fst (fst (extract sn (pure_field f) bounds resolution w)) =
  cell_vertex sn f bounds resolution
    <$> List.filter (crossing_cell f bounds resolution) (loop_cells resolution).
Proof.
  unfold extract, bind.
  set (I := fun (st : state F) (done : list (Z * Z * Z)) =>
              vertices st = cell_vertex sn f bounds resolution
                <$> List.filter (crossing_cell f bounds resolution) done /\
              length (grid st) = 8%nat).
  assert (Hinv : I (fst (march sn (pure_field f) bounds resolution w))
                   ([] ++ loop_cells resolution)).
  { unfold march, loop_cells.
    apply (forM_listed I).
    - intros st z w1 done Hst. apply (forM_listed I); [|exact Hst].
      intros st1 y w2 done1 Hst1. apply (forM_listed I); [|exact Hst1].
      intros st2 x w3 done2 Hst2. apply cell_pure_listed, Hst2.
    - split; [reflexivity|]. cbn [init_state grid]. apply length_replicate. }
  destruct (march sn (pure_field f) bounds resolution w) as [st w1].
  cbn [fst ret]. apply Hinv.
Qed.

End PureVertices.
